(** * QSGRoundedRectangularImageNode: a shallow embedding and its properties

    The development follows [QSGRoundedRectangularImageNode.hpp] and
    [qsgroundedrectangularimagenode.cpp].

    Modelling conventions.
    - A [qreal] (IEEE-754 binary64) and a [float] (binary32) are rational
      numbers, the finite values of the two formats being rationals.  The
      arithmetic that produces vertex values is kept operation by operation
      and rounded as the hardware rounds it: every sum, product and quotient
      of [qreal]s is the exact result rounded to binary64, and a [qreal]
      stored in a [float] field of [TexturedPoint2D] is rounded to binary32
      (to nearest, ties to even, with gradual underflow; [IEEE.round]), as
      on a target that evaluates [double] expressions in double precision
      and does not fuse a product with a sum.  Infinities, NaN and the sign
      of zero are not represented, so overflow is not.  The comparisons that steer the control flow ([isValid],
      [qFuzzyIsNull], [qFuzzyCompare], the cache keys) are decided on the
      rational values; the difference and the product inside
      [qFuzzyCompare] are exact.
    - C++ [int] loop counters and vertex counts are natural numbers.
    - A pointer to a [QSGGeometry] is an index into a heap of geometry
      objects; [nullptr] is [None].
    - [assert] is active: with [NDEBUG] defined the translation unit does not
      compile ([material_cast] names an undeclared identifier), so every
      build of this source checks its assertions.  A failed assertion, a
      null dereference and an out-of-range access end the run with a
      [Fault].
    - Qt functions whose definition is short and stable ([qFuzzyCompare],
      [qFuzzyIsNull], [qAbs], [qMin], the [QRectF] accessors,
      [QSGGeometry::updateTexturedRectGeometry], [QCache] with its default
      capacity) are written out after Qt's headers.  The two that are not
      (the element list of [QPainterPath::addRoundedRect(...).simplified()],
      and [QRectF::operator==], which differs between Qt versions) are
      parameters of the model.
    - Of the node, the texture, the shape, the geometry pointer, the
      texture bound to the two materials and the dirty notifications are
      kept.  [material_cast] always succeeds, the constructor having
      installed materials of the two types.  The filtering state of the two
      materials, which only [setSmooth] and the constructor touch, is kept
      beside the node in [Facade]. *)

From Stdlib Require Import QArith Qabs Qminmax Qround Qpower.
From Stdlib Require Import List Bool Arith PeanoNat Lia Lqa.
From Stdlib Require Import Permutation.
Import ListNotations.

(** ** Scalars and the fuzzy comparisons of <QtGlobal> *)

Definition qreal := Q.

Definition Qlt_bool (a b : Q) : bool := negb (Qle_bool b a).

(** [qAbs(t)] is [t >= 0 ? t : -t]. *)
Definition qAbs (t : qreal) : qreal := if Qle_bool 0 t then t else (- t)%Q.

(** [qMin(a, b)] is [(a < b) ? a : b]. *)
Definition qMin (a b : qreal) : qreal := if Qlt_bool a b then a else b.

(** [qFuzzyCompare(p1, p2)] is
    [qAbs(p1 - p2) * 1000000000000. <= qMin(qAbs(p1), qAbs(p2))]. *)
Definition qFuzzyCompare (p1 p2 : qreal) : bool :=
  Qle_bool (qAbs (p1 - p2) * 1000000000000)%Q (qMin (qAbs p1) (qAbs p2)).

(** [qFuzzyIsNull(d)] is [qAbs(d) <= 0.000000000001]. *)
Definition qFuzzyIsNull (d : qreal) : bool :=
  Qle_bool (qAbs d) 0.000000000001%Q.

(** ** Binary floating point *)

Module IEEE.

(** The integer nearest to [x], the even one of the two when [x] lies
    half way. *)
Definition nearest_even (x : Q) : Z :=
  let f := Qfloor x in
  match Qcompare (x - inject_Z f) (1 # 2) with
  | Lt => f
  | Gt => (f + 1)%Z
  | Eq => if Z.even f then f else (f + 1)%Z
  end.

(** For [0 < a], the integer [k] with [2^k <= a < 2^(k+1)]. *)
Definition ilog2 (a : Q) : Z :=
  let k := (Z.log2 (Qnum a) - Z.log2 (QDen a))%Z in
  if Qle_bool (2 ^ k)%Q a then k else (k - 1)%Z.

(** The exponent of the last place of [0 < a] in a format of [prec]
    significant bits whose least subnormal is [2^emin]. *)
Definition exponent (prec emin : Z) (a : Q) : Z :=
  Z.max (ilog2 a - (prec - 1)) emin.

Definition round_pos (prec emin : Z) (a : Q) : Q :=
  let e := exponent prec emin a in
  inject_Z (nearest_even (a * 2 ^ (- e))) * 2 ^ e.

(** Rounding to nearest, ties to even; the result is in lowest terms. *)
Definition round (prec emin : Z) (q : Q) : Q :=
  match Qcompare q 0 with
  | Eq => 0
  | Gt => Qred (round_pos prec emin q)
  | Lt => Qred (- round_pos prec emin (- q))
  end.

Definition binary64 : Q -> Q := round 53 (-1074).

Definition binary32 : Q -> Q := round 24 (-149).

(** The values of binary64: those that rounding leaves as they are. *)
Definition is_binary64 (q : Q) : Prop := binary64 q == q.

End IEEE.

(** [a + b], [a * b] and [a / b] on [qreal] operands. *)
Definition qreal_add (a b : qreal) : qreal := IEEE.binary64 (a + b).

Definition qreal_mul (a b : qreal) : qreal := IEEE.binary64 (a * b).

(** The divisor is the width or the height of a valid shape wherever the
    source divides, hence not zero. *)
Definition qreal_div (a b : qreal) : qreal := IEEE.binary64 (a / b).

(** C++ [float], and the implicit conversion of a [qreal] to it. *)
Definition float := Q.

Definition to_float (d : qreal) : float := IEEE.binary32 d.

(** ** Points and rectangles *)

Module QPointF.
Record t : Type := mk { x : qreal; y : qreal }.
End QPointF.

Module QRectF.
Record t : Type := mk { x : qreal; y : qreal; width : qreal; height : qreal }.

Definition left (r : t) : qreal := x r.
Definition top (r : t) : qreal := y r.
(** [right()] is [xp + w] and [bottom()] is [yp + h]. *)
Definition right (r : t) : qreal := qreal_add (x r) (width r).
Definition bottom (r : t) : qreal := qreal_add (y r) (height r).

(** [isEmpty()] is [w <= 0. || h <= 0.]. *)
Definition isEmpty (r : t) : bool :=
  Qle_bool (width r) 0 || Qle_bool (height r) 0.

(** The default constructed rectangle. *)
Definition null : t := mk 0 0 0 0.

(** Comparison of the four coordinates by value: one possible
    [operator==], used where an example needs a concrete one. *)
Definition exact_eq (a b : t) : bool :=
  Qeq_bool (x a) (x b) && Qeq_bool (y a) (y b)
  && Qeq_bool (width a) (width b) && Qeq_bool (height a) (height b).

End QRectF.

(** ** [QSGRoundedRectangularImageNode::Shape] *)

Record Shape : Type := mkShape { rect : QRectF.t; radius : qreal }.

(** [isValid()]: [!rect.isEmpty() && std::isgreaterequal(radius, 0.0)]. *)
Definition isValid (s : Shape) : bool :=
  negb (QRectF.isEmpty (rect s)) && Qle_bool 0 (radius s).

(** The default member initialiser of [m_shape]. *)
Definition default_Shape : Shape := mkShape QRectF.null 0.

(** ** Faults and the two monads of the model *)

Inductive Fault : Type :=
| AssertionFailed     (* assert(...) did not hold *)
| NullPointer         (* a null or dangling pointer was dereferenced *)
| OutOfRange.         (* an index outside a container *)

Inductive Res (A : Type) : Type :=
| Val (a : A)
| Err (f : Fault).
Arguments Val {A} a.
Arguments Err {A} f.

Definition rbind {A B} (m : Res A) (k : A -> Res B) : Res B :=
  match m with
  | Val a => k a
  | Err f => Err f
  end.

Definition rassert (b : bool) : Res unit :=
  if b then Val tt else Err AssertionFailed.

Declare Scope res_scope.
Delimit Scope res_scope with res.
Notation "x <- m ;; k" := (rbind m (fun x => k))
  (at level 61, m at next level, right associativity) : res_scope.
Notation "m ;;; k" := (rbind m (fun _ => k))
  (at level 61, right associativity) : res_scope.

(** [for (int i = start; i < start + count; ++i) body(i)], threading the
    loop state and stopping at the first fault. *)
Fixpoint for_upto {St : Type} (count start : nat)
         (body : nat -> St -> Res St) (s : St) : Res St :=
  match count with
  | O => Val s
  | S c =>
      match body start s with
      | Val s' => for_upto c (S start) body s'
      | Err f => Err f
      end
  end.

(** ** Vectors accessed by index *)

Section Vec.
Context {A : Type}.

(** [v.at(i)] and [v[i]] as an rvalue. *)
Definition vec_at (v : list A) (i : nat) : Res A :=
  match nth_error v i with
  | Some a => Val a
  | None => Err OutOfRange
  end.

Fixpoint vec_write (v : list A) (i : nat) (a : A) : list A :=
  match v, i with
  | [], _ => []
  | _ :: v', O => a :: v'
  | b :: v', S j => b :: vec_write v' j a
  end.

(** [v[i] = a]. *)
Definition vec_set (v : list A) (i : nat) (a : A) : Res (list A) :=
  if i <? length v then Val (vec_write v i a) else Err OutOfRange.
End Vec.

(** ** The painter path elements and the outline builder *)

Inductive ElementType : Type :=
| MoveToElement
| LineToElement
| CurveToElement
| CurveToDataElement.

Record Element : Type := mkElement { ex : qreal; ey : qreal; type : ElementType }.

(** [QPainterPath::Element::operator QPointF()]. *)
Definition toPointF (e : Element) : QPointF.t := QPointF.mk (ex e) (ey e).

Definition is_move_or_line (t : ElementType) : bool :=
  match t with
  | MoveToElement | LineToElement => true
  | _ => false
  end.

(** The index read at iteration [i]: [(i % 2) ? (i) : (elementCount - i - 1)]. *)
Definition source_index (elementCount i : nat) : nat :=
  if Nat.eqb (i mod 2) 0 then elementCount - i - 1 else i.

(** The body of the loop at lines 200-212. *)
Definition outline_body (painterPath : list Element) (elementCount : nat)
           (i : nat) (path : list QPointF.t) : Res (list QPointF.t) :=
  (e <- vec_at painterPath i ;;
   rassert (is_move_or_line (type e)) ;;;
   src <- vec_at painterPath (source_index elementCount i) ;;
   vec_set path i (toPointF src))%res.

(** Lines 196-212: a vector of [elementCount] default points, filled by the
    loop. *)
Definition build_outline (painterPath : list Element) : Res (list QPointF.t) :=
  let elementCount := length painterPath in
  for_upto elementCount 0 (outline_body painterPath elementCount)
           (repeat (QPointF.mk 0 0) elementCount).

(** ** Textures *)

(** The two members of [QSGTexture] that the node reads. *)
Record QSGTexture : Type := mkTexture {
  isAtlasTexture : bool;
  normalizedTextureSubRect : QRectF.t
}.

(** ** [QSGGeometry] *)

Module QSGGeometry.
Inductive DataPattern : Type :=
| AlwaysUploadPattern | StreamPattern | DynamicPattern | StaticPattern.

Inductive DrawingMode : Type :=
| DrawPoints | DrawLines | DrawLineLoop | DrawLineStrip
| DrawTriangles | DrawTriangleStrip | DrawTriangleFan.

(** The attribute sets with a [defaultAttributes_*] constructor; the
    layout fixes [attributes()] and [sizeOfVertex()] together. *)
Inductive AttributeSet : Type :=
| Point2D | TexturedPoint2D_set | ColoredPoint2D.

(** [struct TexturedPoint2D { float x, y; float tx, ty; ... }]. *)
Record TexturedPoint2D : Type :=
  mkTP { x : float; y : float; tx : float; ty : float }.

(** [void set(float nx, float ny, float ntx, float nty)]: a caller that
    has [qreal]s converts them at the call. *)
Definition set (nx ny ntx nty : float) : TexturedPoint2D := mkTP nx ny ntx nty.

Record t : Type := mk {
  attributes : AttributeSet;
  indexDataPattern : DataPattern;
  vertexDataPattern : DataPattern;
  drawingMode : DrawingMode;
  vertexData : list TexturedPoint2D;
  indexDataDirty : bool;
  vertexDataDirty : bool
}.

Definition vertexCount (g : t) : nat := length (vertexData g).

(** [QSGGeometry(attribs, vertexCount)]: Qt's defaults are the
    always-upload patterns and the triangle strip; the vertex storage is
    not initialised by Qt and holds zeroes here. *)
Definition create (a : AttributeSet) (n : nat) : t :=
  mk a AlwaysUploadPattern AlwaysUploadPattern DrawTriangleStrip
     (repeat (mkTP 0 0 0 0) n) false false.

Definition resize (n : nat) (v : list TexturedPoint2D) : list TexturedPoint2D :=
  firstn n v ++ repeat (mkTP 0 0 0 0) (n - length v).

(** [allocate(vertexCount)]: only the vertex storage changes. *)
Definition allocate (n : nat) (g : t) : t :=
  mk (attributes g) (indexDataPattern g) (vertexDataPattern g) (drawingMode g)
     (resize n (vertexData g)) (indexDataDirty g) (vertexDataDirty g).

Definition setIndexDataPattern (p : DataPattern) (g : t) : t :=
  mk (attributes g) p (vertexDataPattern g) (drawingMode g)
     (vertexData g) (indexDataDirty g) (vertexDataDirty g).

Definition setVertexDataPattern (p : DataPattern) (g : t) : t :=
  mk (attributes g) (indexDataPattern g) p (drawingMode g)
     (vertexData g) (indexDataDirty g) (vertexDataDirty g).

Definition setDrawingMode (m : DrawingMode) (g : t) : t :=
  mk (attributes g) (indexDataPattern g) (vertexDataPattern g) m
     (vertexData g) (indexDataDirty g) (vertexDataDirty g).

Definition setVertexData (v : list TexturedPoint2D) (g : t) : t :=
  mk (attributes g) (indexDataPattern g) (vertexDataPattern g) (drawingMode g)
     v (indexDataDirty g) (vertexDataDirty g).

Definition markIndexDataDirty (g : t) : t :=
  mk (attributes g) (indexDataPattern g) (vertexDataPattern g) (drawingMode g)
     (vertexData g) true (vertexDataDirty g).

Definition markVertexDataDirty (g : t) : t :=
  mk (attributes g) (indexDataPattern g) (vertexDataPattern g) (drawingMode g)
     (vertexData g) (indexDataDirty g) true.

Definition pattern_eqb (a b : DataPattern) : bool :=
  match a, b with
  | AlwaysUploadPattern, AlwaysUploadPattern
  | StreamPattern, StreamPattern
  | DynamicPattern, DynamicPattern
  | StaticPattern, StaticPattern => true
  | _, _ => false
  end.

Definition is_triangle_strip (m : DrawingMode) : bool :=
  match m with DrawTriangleStrip => true | _ => false end.

Definition is_textured_point2d (a : AttributeSet) : bool :=
  match a with TexturedPoint2D_set => true | _ => false end.

(** [updateTexturedRectGeometry(g, rect, textureRect)] writes [v[0]] to
    [v[3]]: top-left, bottom-left, top-right, bottom-right.  Each
    assignment, as [v[0].x = rect.left()], stores a [qreal] in a [float]. *)
Definition updateTexturedRectGeometry (rect textureRect : QRectF.t) (g : t) : Res t :=
  (v0 <- vec_set (vertexData g) 0
         (mkTP (to_float (QRectF.left rect)) (to_float (QRectF.top rect))
               (to_float (QRectF.left textureRect))
               (to_float (QRectF.top textureRect))) ;;
   v1 <- vec_set v0 1
         (mkTP (to_float (QRectF.left rect)) (to_float (QRectF.bottom rect))
               (to_float (QRectF.left textureRect))
               (to_float (QRectF.bottom textureRect))) ;;
   v2 <- vec_set v1 2
         (mkTP (to_float (QRectF.right rect)) (to_float (QRectF.top rect))
               (to_float (QRectF.right textureRect))
               (to_float (QRectF.top textureRect))) ;;
   v3 <- vec_set v2 3
         (mkTP (to_float (QRectF.right rect)) (to_float (QRectF.bottom rect))
               (to_float (QRectF.right textureRect))
               (to_float (QRectF.bottom textureRect))) ;;
   Val (setVertexData v3 g))%res.
End QSGGeometry.

(** ** [QCache<ShapePair, QVector<QPointF>>] *)

Module QCache.
(** [QPair<QPair<qreal, qreal>, qreal>]: ((width, height), radius). *)
Definition Key : Type := (qreal * qreal) * qreal.

(** Keys are hashed and compared with [==] on their three numbers. *)
Definition key_eqb (a b : Key) : bool :=
  Qeq_bool (fst (fst a)) (fst (fst b))
  && Qeq_bool (snd (fst a)) (snd (fst b))
  && Qeq_bool (snd a) (snd b).

(** The entries, most recently used first; every entry has cost 1. *)
Definition t : Type := list (Key * list QPointF.t).

(** The default [maxCost]. *)
Definition maxCost : nat := 100.

Definition empty : t := [].

Definition contains (c : t) (k : Key) : bool :=
  existsb (fun e => key_eqb (fst e) k) c.

Definition find (c : t) (k : Key) : option (list QPointF.t) :=
  option_map snd (List.find (fun e => key_eqb (fst e) k) c).

Definition remove (c : t) (k : Key) : t :=
  filter (fun e => negb (key_eqb (fst e) k)) c.

(** [object(key)]: the stored vector, or null; a hit moves the entry to
    the front of the usage order. *)
Definition object (c : t) (k : Key) : option (list QPointF.t) * t :=
  match List.find (fun e => key_eqb (fst e) k) c with
  | Some e => (Some (snd e), e :: remove c k)
  | None => (None, c)
  end.

(** [insert(key, object)] with the default cost 1: the old entry of the
    key is removed, the least recently used entries are dropped until one
    unit of cost is free, and the new entry becomes the most recent. *)
Definition insert (c : t) (k : Key) (v : list QPointF.t) : t :=
  let c' := remove c k in
  if maxCost <? 1 then c'
  else (k, v) :: firstn (maxCost - 1) c'.
End QCache.

(** ** The process state and its monad *)

Definition ptr := nat.

Record World : Type := mkWorld {
  paths : QCache.t;               (* the function-local static cache *)
  heap : list QSGGeometry.t       (* the QSGGeometry objects allocated so far *)
}.

Definition M (A : Type) : Type := World -> Res (A * World).

Definition ret {A} (a : A) : M A := fun W => Val (a, W).

Definition bind {A B} (m : M A) (k : A -> M B) : M B :=
  fun W =>
    match m W with
    | Val (a, W') => k a W'
    | Err f => Err f
    end.

Definition fail {A} (f : Fault) : M A := fun _ => Err f.

Definition lift {A} (r : Res A) : M A :=
  fun W => match r with Val a => Val (a, W) | Err f => Err f end.

Definition assert (b : bool) : M unit := lift (rassert b).

Declare Scope m_scope.
Delimit Scope m_scope with m.
Notation "x <- m ;; k" := (bind m (fun x => k))
  (at level 61, m at next level, right associativity) : m_scope.
Notation "m ;;; k" := (bind m (fun _ => k))
  (at level 61, right associativity) : m_scope.

Definition get_paths : M QCache.t := fun W => Val (paths W, W).

Definition put_paths (c : QCache.t) : M unit :=
  fun W => Val (tt, mkWorld c (heap W)).

(** [new QSGGeometry(...)]: the fresh object gets the next address. *)
Definition new_geometry (g : QSGGeometry.t) : M ptr :=
  fun W => Val (length (heap W), mkWorld (paths W) (heap W ++ [g])).

(** [*p] as an rvalue. *)
Definition deref (p : ptr) : M QSGGeometry.t :=
  fun W =>
    match nth_error (heap W) p with
    | Some g => Val (g, W)
    | None => Err NullPointer
    end.

(** A call [p->method(...)] that changes the object. *)
Definition modify_res (p : ptr) (f : QSGGeometry.t -> Res QSGGeometry.t) : M unit :=
  fun W =>
    match nth_error (heap W) p with
    | Some g =>
        match f g with
        | Val g' => Val (tt, mkWorld (paths W) (vec_write (heap W) p g'))
        | Err e => Err e
        end
    | None => Err NullPointer
    end.

Definition modify (p : ptr) (f : QSGGeometry.t -> QSGGeometry.t) : M unit :=
  modify_res p (fun g => Val (f g)).


(** ** The scene graph node *)

Inductive DirtyState : Type :=
| DirtyGeometry
| DirtyMaterial.

(** The members of the node, with the part of its [QSGGeometryNode] base
    that the source touches: the geometry pointer, the texture bound to the
    two materials, and the dirty notifications sent to the scene graph
    since the constructor returned (latest first).  [rebuildCalls] is a
    ghost counter, absent from the C++
    object: it counts the entries into [rebuildGeometry(const Shape&)]. *)
Record Node : Type := mkNode {
  m_texture : option QSGTexture;
  m_shape : Shape;
  m_smooth : bool;
  geometry : option ptr;
  materialTexture : option QSGTexture;
  opaqueMaterialTexture : option QSGTexture;
  dirtyLog : list DirtyState;
  rebuildCalls : nat
}.

(** The node after its constructor. *)
Definition new_Node : Node :=
  mkNode None default_Shape true None None None [] 0.

Definition set_m_texture (t : option QSGTexture) (n : Node) : Node :=
  mkNode t (m_shape n) (m_smooth n) (geometry n)
         (materialTexture n) (opaqueMaterialTexture n) (dirtyLog n) (rebuildCalls n).

Definition set_m_shape (s : Shape) (n : Node) : Node :=
  mkNode (m_texture n) s (m_smooth n) (geometry n)
         (materialTexture n) (opaqueMaterialTexture n) (dirtyLog n) (rebuildCalls n).

Definition markDirty (d : DirtyState) (n : Node) : Node :=
  mkNode (m_texture n) (m_shape n) (m_smooth n) (geometry n)
         (materialTexture n) (opaqueMaterialTexture n) (d :: dirtyLog n) (rebuildCalls n).

(** [QSGGeometryNode::setGeometry]: installs the pointer and marks the
    geometry dirty. *)
Definition setGeometry (p : ptr) (n : Node) : Node :=
  mkNode (m_texture n) (m_shape n) (m_smooth n) (Some p)
         (materialTexture n) (opaqueMaterialTexture n)
         (DirtyGeometry :: dirtyLog n) (rebuildCalls n).

(** [material()->setTexture(t); opaqueMaterial()->setTexture(t)]. *)
Definition bind_material_textures (t : QSGTexture) (n : Node) : Node :=
  mkNode (m_texture n) (m_shape n) (m_smooth n) (geometry n)
         (Some t) (Some t) (dirtyLog n) (rebuildCalls n).

Definition count_rebuild (n : Node) : Node :=
  mkNode (m_texture n) (m_shape n) (m_smooth n) (geometry n)
         (materialTexture n) (opaqueMaterialTexture n) (dirtyLog n)
         (S (rebuildCalls n)).

Definition ptr_eqb (a b : option ptr) : bool :=
  match a, b with
  | Some p, Some q => Nat.eqb p q
  | None, None => true
  | _, _ => false
  end.

(** ** The functions of [qsgroundedrectangularimagenode.cpp] *)

(** The lambda [mapToAtlasTexture] of line 268. *)
Definition mapToAtlasTexture (texNormalSubRect : QRectF.t) (nPoint : QPointF.t)
  : QPointF.t :=
  QPointF.mk
    (qreal_add (QRectF.x texNormalSubRect)
               (qreal_mul (QRectF.width texNormalSubRect) (QPointF.x nPoint)))
    (qreal_add (QRectF.y texNormalSubRect)
               (qreal_mul (QRectF.height texNormalSubRect) (QPointF.y nPoint))).

(** The body of the loop at lines 277-285, for the vertex at [pos].  The
    four arguments of [set] are [qreal] expressions, converted to [float]
    at the call. *)
Definition textured_point (shape : Shape) (atlasTexture : option QSGTexture)
           (texNormalSubRect : QRectF.t) (pos : QPointF.t)
  : QSGGeometry.TexturedPoint2D :=
  let dx := QRectF.x (rect shape) in
  let dy := QRectF.y (rect shape) in
  let tPos := QPointF.mk (qreal_div (QPointF.x pos) (QRectF.width (rect shape)))
                         (qreal_div (QPointF.y pos) (QRectF.height (rect shape))) in
  let tPos := match atlasTexture with
              | Some _ => mapToAtlasTexture texNormalSubRect tPos
              | None => tPos
              end in
  QSGGeometry.set (to_float (qreal_add (QPointF.x pos) dx))
                  (to_float (qreal_add (QPointF.y pos) dy))
                  (to_float (QPointF.x tPos)) (to_float (QPointF.y tPos)).

(** Lines 273-285 on the geometry object; [path] is the pointer set by the
    outline selection (null on the plain rectangle branch). *)
Definition fill_rounded (shape : Shape) (atlasTexture : option QSGTexture)
           (texNormalSubRect : QRectF.t) (path : option (list QPointF.t))
           (g : QSGGeometry.t) : Res QSGGeometry.t :=
  (points <- for_upto (QSGGeometry.vertexCount g) 0
               (fun i points =>
                  match path with
                  | None => Err NullPointer
                  | Some v =>
                      pos <- vec_at v i ;;
                      vec_set points i
                        (textured_point shape atlasTexture texNormalSubRect pos)
                  end)
               (QSGGeometry.vertexData g) ;;
   Val (QSGGeometry.setVertexData points g))%res.

(** Lines 249-259. *)
Definition texNormalSubRect_of (atlasTexture : option QSGTexture) : QRectF.t :=
  match atlasTexture with
  | Some t => normalizedTextureSubRect t
  | None => QRectF.mk 0 0 1 1
  end.

Section Model.

(** The elements of [QPainterPath p; p.addRoundedRect(0, 0, w, h, r, r);
    p = p.simplified()], in order, as a function of [w], [h] and [r]. *)
Variable simplifiedRoundedRect : qreal -> qreal -> qreal -> list Element.

(** [QRectF::operator==]. *)
Variable QRectF_eq : QRectF.t -> QRectF.t -> bool.

(** [Shape::operator==]: [rect == b.rect && qFuzzyCompare(radius, b.radius)]. *)
Definition Shape_eq (a b : Shape) : bool :=
  QRectF_eq (rect a) (rect b) && qFuzzyCompare (radius a) (radius b).

Definition shape_key (shape : Shape) : QCache.Key :=
  ((QRectF.width (rect shape), QRectF.height (rect shape)), radius shape).

(** Lines 183-215: the outline of a rounded shape, from the cache or built
    and then cached. *)
Definition cached_outline (key : QCache.Key) : M (option (list QPointF.t)) :=
  (c <- get_paths ;;
   if QCache.contains c key then
     let '(path, c') := QCache.object c key in
     put_paths c' ;;; ret path
   else
     upPath <- lift (build_outline
                       (simplifiedRoundedRect (fst (fst key)) (snd (fst key)) (snd key))) ;;
     put_paths (QCache.insert c key upPath) ;;;
     ret (Some upPath))%m.

(** Lines 161-218: the vertex count and the outline pointer. *)
Definition select_path (shape : Shape) : M (nat * option (list QPointF.t)) :=
  if qFuzzyIsNull (radius shape) then ret (4%nat, None)
  else
    (path <- cached_outline (shape_key shape) ;;
     match path with
     | Some v => ret (length v, path)
     | None => fail NullPointer
     end)%m.

(** Lines 220-247: a fresh geometry, or the passed one resized and checked. *)
Definition prepare_geometry (geometry : option ptr) (vertexCount : nat) : M ptr :=
  match geometry with
  | None =>
      (p <- new_geometry (QSGGeometry.create QSGGeometry.TexturedPoint2D_set vertexCount) ;;
       modify p (QSGGeometry.setIndexDataPattern QSGGeometry.StaticPattern) ;;;
       modify p (QSGGeometry.setVertexDataPattern QSGGeometry.StaticPattern) ;;;
       modify p (QSGGeometry.setDrawingMode QSGGeometry.DrawTriangleStrip) ;;;
       ret p)%m
  | Some p =>
      (modify p (QSGGeometry.allocate vertexCount) ;;;
       g <- deref p ;;
       assert (QSGGeometry.pattern_eqb (QSGGeometry.indexDataPattern g)
                                       QSGGeometry.StaticPattern) ;;;
       assert (QSGGeometry.pattern_eqb (QSGGeometry.vertexDataPattern g)
                                       QSGGeometry.StaticPattern) ;;;
       assert (QSGGeometry.is_triangle_strip (QSGGeometry.drawingMode g)) ;;;
       assert (QSGGeometry.is_textured_point2d (QSGGeometry.attributes g)) ;;;
       ret p)%m
  end.

(** The static [rebuildGeometry(shape, geometry, atlasTexture)]; the result
    is the geometry pointer, [None] for [nullptr]. *)
Definition rebuildGeometry (shape : Shape) (geometry : option ptr)
           (atlasTexture : option QSGTexture) : M (option ptr) :=
  if negb (isValid shape) then ret None
  else
    (vp <- select_path shape ;;
     let vertexCount := fst vp in
     let path := snd vp in
     geometry <- prepare_geometry geometry vertexCount ;;
     let texNormalSubRect := texNormalSubRect_of atlasTexture in
     (if qFuzzyIsNull (radius shape) then
        modify_res geometry
          (QSGGeometry.updateTexturedRectGeometry (rect shape) texNormalSubRect)
      else
        modify_res geometry
          (fill_rounded shape atlasTexture texNormalSubRect path)) ;;;
     modify geometry QSGGeometry.markIndexDataDirty ;;;
     modify geometry QSGGeometry.markVertexDataDirty ;;;
     ret (Some geometry))%m.

(** The member [rebuildGeometry(const Shape&)].  The third argument of the
    static call reads [m_texture->isAtlasTexture()] before the call is made. *)
Definition rebuildGeometry_shape (shape : Shape) (n : Node) : M (bool * Node) :=
  fun W =>
    let n := count_rebuild n in
    let geometry := geometry n in
    match m_texture n with
    | None => Err NullPointer
    | Some t =>
        match rebuildGeometry shape geometry
                (if isAtlasTexture t then Some t else None) W with
        | Err f => Err f
        | Val (rebuiltGeometry, W') =>
            match rebuiltGeometry with
            | None => Val ((false, n), W')
            | Some p =>
                if ptr_eqb rebuiltGeometry geometry
                then Val ((true, markDirty DirtyGeometry n), W')
                else Val ((true, setGeometry p n), W')
            end
        end
    end.

(** The inline [rebuildGeometry()]. *)
Definition rebuildGeometry_current (n : Node) : M (bool * Node) :=
  rebuildGeometry_shape (m_shape n) n.

(** [setShape(shape)]. *)
Definition setShape (shape : Shape) (n : Node) : M (bool * Node) :=
  fun W =>
    if Shape_eq (m_shape n) shape then Val ((false, n), W)
    else
      match rebuildGeometry_shape shape n W with
      | Err f => Err f
      | Val ((ret, n'), W') =>
          Val ((ret, if ret then set_m_shape shape n' else n'), W')
      end.

(** [setTexture(texture)]; a null [shared_ptr] is [None]. *)
Definition setTexture (texture : option QSGTexture) (n : Node) : M (unit * Node) :=
  fun W =>
    match texture with
    | None => Err AssertionFailed
    | Some t =>
        let wasAtlas := match m_texture n with
                        | None => true
                        | Some old => isAtlasTexture old
                        end in
        let n := set_m_texture texture n in
        let after_rebuild :=
          if wasAtlas || isAtlasTexture t
          then match rebuildGeometry_current n W with
               | Err f => Err f
               | Val ((_, n'), W') => Val (n', W')
               end
          else Val (n, W) in
        match after_rebuild with
        | Err f => Err f
        | Val (n', W') =>
            Val ((tt, markDirty DirtyMaterial (bind_material_textures t n')), W')
        end
    end.

End Model.

(** ** [setSmooth] and the constructor *)

(** [QSGTexture::Filtering]; [NoFiltering] is [QSGTexture::None]. *)
Inductive Filtering : Type :=
| NoFiltering
| Nearest
| Linear.

(** The filtering state of one texture material. *)
Record MaterialFilter : Type := mkFilter {
  filtering : Filtering;
  mipmapFiltering : Filtering
}.

(** The node together with the filtering state of [material()] and of
    [opaqueMaterial()]. *)
Record Facade : Type := mkFacade {
  node : Node;
  materialFilter : MaterialFilter;
  opaqueMaterialFilter : MaterialFilter
}.

Definition with_node (n : Node) (f : Facade) : Facade :=
  mkFacade n (materialFilter f) (opaqueMaterialFilter f).

(** [setSmooth(smooth)], lines 74-92. *)
Definition setSmooth (smooth : bool) (f : Facade) : Facade :=
  if Bool.eqb (m_smooth (node f)) smooth then f
  else
    let filtering := if smooth then Linear else Nearest in
    let mipmapFiltering := if smooth then Linear else NoFiltering in
    mkFacade (markDirty DirtyMaterial (node f))
             (mkFilter filtering mipmapFiltering)
             (mkFilter filtering mipmapFiltering).

(** The constructor, lines 47-62, given the filtering state of the two
    materials it has just made: the members take their default
    initialisers and [setSmooth(m_smooth)] is called. *)
Definition construct (material opaqueMaterial : MaterialFilter) : Facade :=
  let members := mkNode None default_Shape true None None None [] 0 in
  setSmooth (m_smooth members) (mkFacade members material opaqueMaterial).

(** * Vocabulary of the statements *)

(** ** Outlines *)

Definition all_move_or_line (es : list Element) : Prop :=
  Forall (fun e => is_move_or_line (type e) = true) es.

Definition no_element : Element := mkElement 0 0 MoveToElement.

(** The symmetric reorder as a list: entry [i] is the element at
    [source_index]. *)
Definition reordered (es : list Element) : list QPointF.t :=
  map (fun i => toPointF (nth (source_index (length es) i) es no_element))
      (seq 0 (length es)).

(** The index map of the loop, made total: the identity outside [0, m). *)
Definition source_index_total (m i : nat) : nat :=
  if (i <? m)%nat then source_index m i else i.

(** ** Geometry objects in the heap *)

(** What the assertions of lines 241-246 check. *)
Definition compatible (g : QSGGeometry.t) : bool :=
  QSGGeometry.pattern_eqb (QSGGeometry.indexDataPattern g) QSGGeometry.StaticPattern
  && QSGGeometry.pattern_eqb (QSGGeometry.vertexDataPattern g) QSGGeometry.StaticPattern
  && QSGGeometry.is_triangle_strip (QSGGeometry.drawingMode g)
  && QSGGeometry.is_textured_point2d (QSGGeometry.attributes g).

(** The geometry argument is null, or points to a live object that this
    function could have produced. *)
Definition geometry_ok (W : World) (geometry : option ptr) : Prop :=
  match geometry with
  | None => True
  | Some p => exists g, nth_error (heap W) p = Some g /\ compatible g = true
  end.

(** The address the build returns: the argument, or the next fresh one. *)
Definition target (W : World) (geometry : option ptr) : ptr :=
  match geometry with
  | Some p => p
  | None => length (heap W)
  end.

(** A corner of a rectangle and of a texture rectangle as a vertex: the
    four [qreal] coordinates stored as [float]s. *)
Definition corner_vertex (px py ptx pty : qreal) : QSGGeometry.TexturedPoint2D :=
  QSGGeometry.mkTP (to_float px) (to_float py) (to_float ptx) (to_float pty).

(** The four vertices of the plain rectangle, in strip order. *)
Definition plain_vertices (r s : QRectF.t) : list QSGGeometry.TexturedPoint2D :=
  [ corner_vertex (QRectF.left r) (QRectF.top r) (QRectF.left s) (QRectF.top s);
    corner_vertex (QRectF.left r) (QRectF.bottom r) (QRectF.left s) (QRectF.bottom s);
    corner_vertex (QRectF.right r) (QRectF.top r) (QRectF.right s) (QRectF.top s);
    corner_vertex (QRectF.right r) (QRectF.bottom r) (QRectF.right s) (QRectF.bottom s) ].



(** One live cell of the heap holds [g]; every other address reads as in
    [h]. *)
Definition cell_set (h h' : list QSGGeometry.t) (p : ptr) (g : QSGGeometry.t) : Prop :=
  nth_error h' p = Some g /\ forall q, q <> p -> nth_error h' q = nth_error h q.

(** The vertex data a successful build leaves, given the outline in use. *)
Definition built_vertices (shape : Shape) (atlasTexture : option QSGTexture)
           (path : option (list QPointF.t)) : list QSGGeometry.TexturedPoint2D :=
  if qFuzzyIsNull (radius shape)
  then plain_vertices (rect shape) (texNormalSubRect_of atlasTexture)
  else map (textured_point shape atlasTexture (texNormalSubRect_of atlasTexture))
           (match path with Some v => v | None => [] end).

(** ** The node *)

(** The atlas argument the member function passes to the static one. *)
Definition atlas_argument (t : QSGTexture) : option QSGTexture :=
  if isAtlasTexture t then Some t else None.

(** All members but the ghost counter agree. *)
Definition same_members (n n' : Node) : Prop :=
  m_texture n' = m_texture n /\ m_shape n' = m_shape n /\ m_smooth n' = m_smooth n
  /\ geometry n' = geometry n /\ materialTexture n' = materialTexture n
  /\ opaqueMaterialTexture n' = opaqueMaterialTexture n /\ dirtyLog n' = dirtyLog n.

(** "The previous texture was an atlas texture", read off the node before
    the call: there was a texture and it was an atlas. *)
Definition previous_is_atlas (n : Node) : bool :=
  match m_texture n with
  | Some old => isAtlasTexture old
  | None => false
  end.

(** The vertex data that belong to a shape under a texture: the four
    corners, or the image of the reordered outline of the shape's size and
    radius (of a key the cache identifies with the shape's). *)
Definition expected_vertices
           (simplified : qreal -> qreal -> qreal -> list Element)
           (shape : Shape) (t : QSGTexture)
           (vs : list QSGGeometry.TexturedPoint2D) : Prop :=
  let S := texNormalSubRect_of (atlas_argument t) in
  if qFuzzyIsNull (radius shape)
  then vs = plain_vertices (rect shape) S
  else exists k,
      QCache.key_eqb k (shape_key shape) = true
      /\ vs = map (textured_point shape (atlas_argument t) S)
                  (reordered (simplified (fst (fst k)) (snd (fst k)) (snd k))).

(** The geometry of the node is the one of its shape and texture. *)
Definition geometry_matches
           (simplified : qreal -> qreal -> qreal -> list Element)
           (n : Node) (W : World) : Prop :=
  isValid (m_shape n) = true ->
  exists t p g,
    m_texture n = Some t /\ geometry n = Some p
    /\ nth_error (heap W) p = Some g
    /\ expected_vertices simplified (m_shape n) t (QSGGeometry.vertexData g).

(** ** The simplifier and the cache *)

Section Vocabulary.

Variable simplified : qreal -> qreal -> qreal -> list Element.

(** The element stream the builder enumerates for a shape. *)
Definition elements_of (shape : Shape) : list Element :=
  simplified (QRectF.width (rect shape)) (QRectF.height (rect shape)) (radius shape).

(** Every cached vector is the reorder of the element stream of its key,
    and the key was taken from a valid shape. *)
Definition cache_sound (c : QCache.t) : Prop :=
  forall k v, In (k, v) c ->
    0 < fst (fst k) /\ 0 < snd (fst k) /\ 0 <= snd k
    /\ v = reordered (simplified (fst (fst k)) (snd (fst k)) (snd k)).


(** The outline of a rounded valid shape can be had without a fault: it is
    cached, or its element stream holds only move-to and line-to. *)
Definition outline_available (W : World) (shape : Shape) : Prop :=
  isValid shape = true -> qFuzzyIsNull (radius shape) = false ->
  QCache.contains (paths W) (shape_key shape) = true
  \/ all_move_or_line (elements_of shape).

(** [QRectF::operator==]. *)
Variable QRectF_eq : QRectF.t -> QRectF.t -> bool.

(** The states of a node and of the process after the constructor and any
    sequence of calls of the public members of the class that returned:
    [setShape], [setTexture], [rebuildGeometry()], [rebuildGeometry(const
    Shape&)] with any shape, and the static [rebuildGeometry] with any
    arguments (the geometry of the node among them).  Other nodes may have
    used the cache and the heap before. *)
Inductive reachable : Node -> World -> Prop :=
| reach_new (W : World) :
    cache_sound (paths W) -> reachable new_Node W
| reach_setShape (n n' : Node) (W W' : World) (s : Shape) (b : bool) :
    reachable n W ->
    setShape simplified QRectF_eq s n W = Val ((b, n'), W') ->
    reachable n' W'
| reach_setTexture (n n' : Node) (W W' : World) (t : QSGTexture) :
    reachable n W ->
    setTexture simplified (Some t) n W = Val ((tt, n'), W') ->
    reachable n' W'
| reach_rebuildGeometry (n n' : Node) (W W' : World) (b : bool) :
    reachable n W ->
    rebuildGeometry_current simplified n W = Val ((b, n'), W') ->
    reachable n' W'
| reach_rebuildGeometry_shape (n n' : Node) (W W' : World) (s : Shape) (b : bool) :
    reachable n W ->
    rebuildGeometry_shape simplified s n W = Val ((b, n'), W') ->
    reachable n' W'
| reach_rebuildGeometry_static (n : Node) (W W' : World) (s : Shape)
                               (g r : option ptr) (a : option QSGTexture) :
    reachable n W ->
    rebuildGeometry simplified s g a W = Val (r, W') ->
    reachable n W'.

(** The states reached when the shape is only ever given through
    [setShape]: the constructor followed by calls of [setShape],
    [setTexture] and [rebuildGeometry()] that returned. *)
Inductive setter_reachable : Node -> World -> Prop :=
| by_new (W : World) :
    cache_sound (paths W) -> setter_reachable new_Node W
| by_setShape (n n' : Node) (W W' : World) (s : Shape) (b : bool) :
    setter_reachable n W ->
    setShape simplified QRectF_eq s n W = Val ((b, n'), W') ->
    setter_reachable n' W'
| by_setTexture (n n' : Node) (W W' : World) (t : QSGTexture) :
    setter_reachable n W ->
    setTexture simplified (Some t) n W = Val ((tt, n'), W') ->
    setter_reachable n' W'
| by_rebuildGeometry (n n' : Node) (W W' : World) (b : bool) :
    setter_reachable n W ->
    rebuildGeometry_current simplified n W = Val ((b, n'), W') ->
    setter_reachable n' W'.

(** What every reachable state satisfies. *)
Definition node_invariant (n : Node) (W : World) : Prop :=
  geometry_ok W (geometry n)
  /\ cache_sound (paths W)
  /\ (m_texture n = None -> geometry n = None /\ m_shape n = default_Shape).

(** The filtering state the two materials have when the constructor has
    made them. *)
Variables material0 opaque0 : MaterialFilter.

(** The states of the facade after the constructor and any sequence of
    calls of its public members that returned. *)
Inductive facade_reachable : Facade -> World -> Prop :=
| facade_new (W : World) :
    facade_reachable (construct material0 opaque0) W
| facade_setSmooth (f : Facade) (W : World) (smooth : bool) :
    facade_reachable f W -> facade_reachable (setSmooth smooth f) W
| facade_setShape (f : Facade) (n' : Node) (W W' : World) (s : Shape) (b : bool) :
    facade_reachable f W ->
    setShape simplified QRectF_eq s (node f) W = Val ((b, n'), W') ->
    facade_reachable (with_node n' f) W'
| facade_setTexture (f : Facade) (n' : Node) (W W' : World) (t : QSGTexture) :
    facade_reachable f W ->
    setTexture simplified (Some t) (node f) W = Val ((tt, n'), W') ->
    facade_reachable (with_node n' f) W'
| facade_rebuildGeometry (f : Facade) (n' : Node) (W W' : World) (b : bool) :
    facade_reachable f W ->
    rebuildGeometry_current simplified (node f) W = Val ((b, n'), W') ->
    facade_reachable (with_node n' f) W'
| facade_rebuildGeometry_shape (f : Facade) (n' : Node) (W W' : World)
                               (s : Shape) (b : bool) :
    facade_reachable f W ->
    rebuildGeometry_shape simplified s (node f) W = Val ((b, n'), W') ->
    facade_reachable (with_node n' f) W'
| facade_rebuildGeometry_static (f : Facade) (W W' : World) (s : Shape)
                                (g r : option ptr) (a : option QSGTexture) :
    facade_reachable f W ->
    rebuildGeometry simplified s g a W = Val (r, W') ->
    facade_reachable f W'.

End Vocabulary.

(** ** Sample data *)

Module Samples.

(** A polyline stand-in for the simplified rounded rectangle: the corners
    are cut straight at the clamped radius.  Eight elements, one move-to
    followed by line-tos, all inside [0,w]x[0,h]. *)
Definition chamfered (w h r : qreal) : list Element :=
  let c := Qmin r (Qmin w h * (1 # 2)) in
  [ mkElement c 0 MoveToElement;
    mkElement (w - c) 0 LineToElement;
    mkElement w c LineToElement;
    mkElement w (h - c) LineToElement;
    mkElement (w - c) h LineToElement;
    mkElement c h LineToElement;
    mkElement 0 (h - c) LineToElement;
    mkElement 0 c LineToElement ].

(** An element stream that still holds a cubic segment. *)
Definition with_curve (w h r : qreal) : list Element :=
  [ mkElement r 0 MoveToElement;
    mkElement (w - r) 0 LineToElement;
    mkElement w 0 CurveToElement;
    mkElement w 0 CurveToDataElement;
    mkElement w r CurveToDataElement;
    mkElement w h LineToElement ].

Definition plain_texture : QSGTexture := mkTexture false (QRectF.mk 0 0 1 1).

Definition atlas_texture : QSGTexture :=
  mkTexture true (QRectF.mk 0.25 0.5 0.5 0.5).

Definition empty_World : World := mkWorld QCache.empty [].

Definition rect_100x50 : QRectF.t := QRectF.mk 0 0 100 50.

Definition rect_at_10_20 : QRectF.t := QRectF.mk 10 20 100 50.

(** The process state after one build of a 100x50 shape of radius 10: the
    cache holds its outline and the heap its geometry, at address 0. *)
Definition warm_World : World :=
  match rebuildGeometry chamfered (mkShape rect_100x50 10) None None empty_World with
  | Val (_, W) => W
  | Err _ => empty_World
  end.

(** A node on which a non-atlas texture has been installed. *)
Definition textured_Node : Node :=
  mkNode (Some plain_texture) default_Shape true None
         (Some plain_texture) (Some plain_texture) [DirtyMaterial] 1.

(** That node and the process state after [setShape] of a 100x50 shape of
    radius 10. *)
Definition shaped_state : Node * World :=
  match setShape chamfered QRectF.exact_eq (mkShape rect_100x50 10)
                 textured_Node empty_World with
  | Val ((_, n), W) => (n, W)
  | Err _ => (textured_Node, empty_World)
  end.

Definition shaped_Node : Node := fst shaped_state.

Definition shaped_World : World := snd shaped_state.

End Samples.

(** * Properties *)

(** ** Rounding is monotone *)

Lemma two_neq0 : ~ 2 == 0.
Proof. intro H; discriminate H. Qed.

Lemma pow2_pos (z : Z) : 0 < 2 ^ z.
Proof. apply Qpower_0_lt; reflexivity. Qed.

Lemma pow2_add (a b : Z) : 2 ^ (a + b) == 2 ^ a * 2 ^ b.
Proof. apply Qpower_plus, two_neq0. Qed.

Lemma pow2_le (a b : Z) : (a <= b)%Z -> 2 ^ a <= 2 ^ b.
Proof. intro H; apply Qpower_le_compat_l; [exact H | discriminate]. Qed.

Lemma pow2_lt (a b : Z) : (a < b)%Z -> 2 ^ a < 2 ^ b.
Proof. intro H; apply Qpower_lt_compat_l; [exact H | reflexivity]. Qed.

Lemma pow2_Z (z : Z) : (0 <= z)%Z -> 2 ^ z == inject_Z (2 ^ z).
Proof. intro H; symmetry; apply (Zpower_Qpower 2 z H). Qed.

Lemma pow2_cancel (a : Z) : 2 ^ (- a) * 2 ^ a == 1.
Proof. rewrite <- pow2_add. replace (- a + a)%Z with 0%Z by lia. reflexivity. Qed.

Lemma nearest_even_bounds (x : Q) :
  (Qfloor x <= IEEE.nearest_even x <= Qfloor x + 1)%Z.
Proof.
  unfold IEEE.nearest_even.
  destruct (Qcompare (x - inject_Z (Qfloor x)) (1 # 2));
    [destruct (Z.even (Qfloor x)) | |]; lia.
Qed.

Lemma nearest_even_le (x y : Q) :
  x <= y -> (IEEE.nearest_even x <= IEEE.nearest_even y)%Z.
Proof.
  intro Hxy.
  pose proof (Qfloor_resp_le x y Hxy) as Hf.
  pose proof (nearest_even_bounds x) as Hx.
  pose proof (nearest_even_bounds y) as Hy.
  destruct (Z.eq_dec (Qfloor x) (Qfloor y)) as [E | N]; [| lia].
  unfold IEEE.nearest_even in *. rewrite <- E in *.
  destruct (Qcompare_spec (x - inject_Z (Qfloor x)) (1 # 2)) as [Cx | Cx | Cx];
    destruct (Qcompare_spec (y - inject_Z (Qfloor x)) (1 # 2)) as [Cy | Cy | Cy];
    try lia; try (exfalso; lra);
    destruct (Z.even (Qfloor x)); lia.
Qed.

Lemma nearest_even_Z (n : Z) : IEEE.nearest_even (inject_Z n) = n.
Proof.
  unfold IEEE.nearest_even. rewrite Qfloor_Z.
  assert (H : inject_Z n - inject_Z n < 1 # 2) by lra.
  destruct (Qcompare_spec (inject_Z n - inject_Z n) (1 # 2)); [exfalso; lra | reflexivity | exfalso; lra].
Qed.

Lemma ilog2_candidate (a : Q) : 0 < a ->
  let k := (Z.log2 (Qnum a) - Z.log2 (QDen a))%Z in
  2 ^ (k - 1) <= a /\ a < 2 ^ (k + 1).
Proof.
  intros Ha k.
  destruct a as [n d]. simpl in k.
  assert (Hn : (0 < n)%Z).
  { unfold Qlt in Ha; simpl in Ha; lia. }
  pose proof (Z.log2_spec n Hn) as [Hn1 Hn2].
  pose proof (Z.log2_spec (Z.pos d) (Pos2Z.is_pos d)) as [Hd1 Hd2].
  pose proof (Z.log2_nonneg n) as Hln.
  pose proof (Z.log2_nonneg (Z.pos d)) as Hld.
  set (ln := Z.log2 n) in *. set (ld := Z.log2 (Z.pos d)) in *.
  assert (Qn1 : 2 ^ ln <= inject_Z n).
  { rewrite pow2_Z by lia. rewrite <- Zle_Qle. exact Hn1. }
  assert (Qn2 : inject_Z n < 2 ^ (ln + 1)).
  { rewrite pow2_Z by lia. rewrite <- Zlt_Qlt. exact Hn2. }
  assert (Qd1 : 2 ^ ld <= inject_Z (Z.pos d)).
  { rewrite pow2_Z by lia. rewrite <- Zle_Qle. exact Hd1. }
  assert (Qd2 : inject_Z (Z.pos d) < 2 ^ (ld + 1)).
  { rewrite pow2_Z by lia. rewrite <- Zlt_Qlt. exact Hd2. }
  assert (Hdpos : 0 < inject_Z (Z.pos d)) by reflexivity.
  assert (Ea : (n # d) * inject_Z (Z.pos d) == inject_Z n).
  { rewrite Qmake_Qdiv. field. intro H; discriminate H. }
  split.
  - apply (Qmult_le_r _ _ _ Hdpos). rewrite Ea.
    apply Qle_trans with (2 ^ (k - 1) * 2 ^ (ld + 1)).
    + apply Qmult_le_l; [apply pow2_pos | apply Qlt_le_weak, Qd2].
    + rewrite <- pow2_add. replace (k - 1 + (ld + 1))%Z with ln by (unfold k, ln, ld; simpl; lia).
      exact Qn1.
  - apply (Qmult_lt_r _ _ _ Hdpos). rewrite Ea.
    apply Qlt_le_trans with (2 ^ (ln + 1)); [exact Qn2 |].
    replace (ln + 1)%Z with (k + 1 + ld)%Z by (unfold k, ln, ld; simpl; lia).
    rewrite pow2_add.
    apply Qmult_le_l; [apply pow2_pos | exact Qd1].
Qed.

Lemma ilog2_spec (a : Q) : 0 < a ->
  2 ^ IEEE.ilog2 a <= a /\ a < 2 ^ (IEEE.ilog2 a + 1).
Proof.
  intro Ha. pose proof (ilog2_candidate a Ha) as [H1 H2].
  unfold IEEE.ilog2.
  destruct (Qle_bool (2 ^ (Z.log2 (Qnum a) - Z.log2 (QDen a))) a) eqn:E.
  - apply Qle_bool_iff in E. split; assumption.
  - split; [exact H1 |].
    replace (Z.log2 (Qnum a) - Z.log2 (QDen a) - 1 + 1)%Z
      with (Z.log2 (Qnum a) - Z.log2 (QDen a))%Z by lia.
    apply Qnot_le_lt. intro H. apply Qle_bool_iff in H. congruence.
Qed.

Lemma ilog2_le (a b : Q) : 0 < a -> a <= b -> (IEEE.ilog2 a <= IEEE.ilog2 b)%Z.
Proof.
  intros Ha Hab.
  assert (Hb : 0 < b) by lra.
  pose proof (ilog2_spec a Ha) as [A1 A2].
  pose proof (ilog2_spec b Hb) as [B1 B2].
  destruct (Z.le_gt_cases (IEEE.ilog2 a) (IEEE.ilog2 b)) as [L | G]; [exact L |].
  exfalso.
  assert (H : 2 ^ (IEEE.ilog2 b + 1) <= 2 ^ IEEE.ilog2 a) by (apply pow2_le; lia).
  lra.
Qed.

Lemma round_pos_nonneg (prec emin : Z) (a : Q) : 0 <= a -> 0 <= IEEE.round_pos prec emin a.
Proof.
  intro Ha. unfold IEEE.round_pos.
  set (e := IEEE.exponent prec emin a).
  apply Qmult_le_0_compat; [| apply Qlt_le_weak, pow2_pos].
  assert (H0 : 0 <= a * 2 ^ (- e)).
  { apply Qmult_le_0_compat; [exact Ha | apply Qlt_le_weak, pow2_pos]. }
  pose proof (nearest_even_bounds (a * 2 ^ (- e))) as [Hb _].
  pose proof (Qfloor_resp_le 0 _ H0) as Hf.
  change (Qfloor 0) with 0%Z in Hf.
  change 0 with (inject_Z 0). rewrite <- Zle_Qle. lia.
Qed.

Lemma round_pos_le (prec emin : Z) (x y : Q) :
  (0 < prec)%Z -> 0 < x -> x <= y ->
  IEEE.round_pos prec emin x <= IEEE.round_pos prec emin y.
Proof.
  intros Hp Hx Hxy.
  assert (Hy : 0 < y) by lra.
  pose proof (ilog2_le x y Hx Hxy) as Hl.
  pose proof (ilog2_spec x Hx) as [X1 X2].
  pose proof (ilog2_spec y Hy) as [Y1 Y2].
  unfold IEEE.round_pos, IEEE.exponent.
  set (lx := IEEE.ilog2 x) in *. set (ly := IEEE.ilog2 y) in *.
  set (ex := Z.max (lx - (prec - 1)) emin).
  set (ey := Z.max (ly - (prec - 1)) emin).
  assert (Hex : (ex <= ey)%Z) by (unfold ex, ey; lia).
  destruct (Z.eq_dec ex ey) as [E | N].
  - rewrite <- E.
    apply Qmult_le_compat_r; [| apply Qlt_le_weak, pow2_pos].
    rewrite <- Zle_Qle. apply nearest_even_le.
    apply Qmult_le_compat_r; [exact Hxy | apply Qlt_le_weak, pow2_pos].
  - assert (Hey : ey = (ly - (prec - 1))%Z) by (unfold ex, ey in *; lia).
    assert (Hlt : (lx < ly)%Z) by (unfold ex, ey in *; lia).
    assert (Hxb : x <= 2 ^ ly).
    { apply Qle_trans with (2 ^ (lx + 1)); [lra | apply pow2_le; lia]. }
    apply Qle_trans with (2 ^ ly).
    + assert (Hn : (0 <= ly - ex)%Z) by lia.
      assert (Hs : x * 2 ^ (- ex) <= inject_Z (2 ^ (ly - ex))).
      { rewrite <- pow2_Z by exact Hn.
        replace (ly - ex)%Z with (ly + - ex)%Z by lia. rewrite pow2_add.
        apply Qmult_le_compat_r; [exact Hxb | apply Qlt_le_weak, pow2_pos]. }
      apply nearest_even_le in Hs. rewrite nearest_even_Z in Hs.
      rewrite Zle_Qle in Hs.
      apply Qle_trans with (inject_Z (2 ^ (ly - ex)) * 2 ^ ex).
      * apply Qmult_le_compat_r; [exact Hs | apply Qlt_le_weak, pow2_pos].
      * rewrite <- pow2_Z by exact Hn. rewrite <- pow2_add.
        replace (ly - ex + ex)%Z with ly by lia. apply Qle_refl.
    + assert (Hn : (0 <= ly - ey)%Z) by lia.
      assert (Hs : inject_Z (2 ^ (ly - ey)) <= y * 2 ^ (- ey)).
      { rewrite <- pow2_Z by exact Hn.
        replace (ly - ey)%Z with (ly + - ey)%Z by lia. rewrite pow2_add.
        apply Qmult_le_compat_r; [exact Y1 | apply Qlt_le_weak, pow2_pos]. }
      apply nearest_even_le in Hs. rewrite nearest_even_Z in Hs.
      rewrite Zle_Qle in Hs.
      apply Qle_trans with (inject_Z (2 ^ (ly - ey)) * 2 ^ ey).
      * rewrite <- pow2_Z by exact Hn. rewrite <- pow2_add.
        replace (ly - ey + ey)%Z with ly by lia. apply Qle_refl.
      * apply Qmult_le_compat_r; [exact Hs | apply Qlt_le_weak, pow2_pos].
Qed.

Lemma round_sign (prec emin : Z) (q : Q) :
  (q == 0 /\ IEEE.round prec emin q = 0) \/
  (0 < q /\ IEEE.round prec emin q == IEEE.round_pos prec emin q) \/
  (q < 0 /\ IEEE.round prec emin q == - IEEE.round_pos prec emin (- q)).
Proof.
  unfold IEEE.round. destruct (q ?= 0) eqn:C.
  - left. apply Qeq_alt in C. split; [exact C | reflexivity].
  - right; right. apply Qlt_alt in C. split; [exact C | apply Qred_correct].
  - right; left. apply Qgt_alt in C. split; [exact C | apply Qred_correct].
Qed.

Lemma round_le (prec emin : Z) (x y : Q) :
  (0 < prec)%Z -> x <= y -> IEEE.round prec emin x <= IEEE.round prec emin y.
Proof.
  intros Hp Hxy.
  destruct (round_sign prec emin x) as [[Hx Ex] | [[Hx Ex] | [Hx Ex]]];
    destruct (round_sign prec emin y) as [[Hy Ey] | [[Hy Ey] | [Hy Ey]]];
    rewrite Ex, Ey; try (exfalso; lra).
  - apply Qle_refl.
  - apply round_pos_nonneg; lra.
  - apply round_pos_le; assumption.
  - pose proof (round_pos_nonneg prec emin (- x)). lra.
  - pose proof (round_pos_nonneg prec emin (- x)).
    pose proof (round_pos_nonneg prec emin y). lra.
  - assert (H : IEEE.round_pos prec emin (- y) <= IEEE.round_pos prec emin (- x)).
    { apply round_pos_le; [exact Hp | lra | lra]. }
    lra.
Qed.

Lemma round_comp (prec emin : Z) (x y : Q) :
  (0 < prec)%Z -> x == y -> IEEE.round prec emin x == IEEE.round prec emin y.
Proof.
  intros Hp E. apply Qle_antisym; apply round_le; try exact Hp; rewrite E; apply Qle_refl.
Qed.

Lemma binary64_le (x y : Q) : x <= y -> IEEE.binary64 x <= IEEE.binary64 y.
Proof. apply round_le; reflexivity. Qed.


Lemma qreal_add_le (a b c d : qreal) :
  a <= c -> b <= d -> qreal_add a b <= qreal_add c d.
Proof. intros H1 H2. apply binary64_le. lra. Qed.

(** ** Indexed writes and counted loops *)

Section VecFacts.
Context {A : Type}.

Lemma vec_write_length (v : list A) (i : nat) (a : A) :
  length (vec_write v i a) = length v.
Proof.
  revert i; induction v as [|b v IH]; intros [|i]; simpl; auto.
Qed.

Lemma nth_error_vec_write_same (v : list A) (i : nat) (a : A) :
  (i < length v)%nat -> nth_error (vec_write v i a) i = Some a.
Proof.
  revert i; induction v as [|b v IH]; intros [|i] H; simpl in *; try lia; auto.
  apply IH; lia.
Qed.

Lemma nth_error_vec_write_other (v : list A) (i j : nat) (a : A) :
  i <> j -> nth_error (vec_write v i a) j = nth_error v j.
Proof.
  revert i j; induction v as [|b v IH]; intros [|i] [|j] H; simpl; auto.
  congruence.
Qed.

Lemma vec_at_Some (v : list A) (i : nat) (a : A) :
  nth_error v i = Some a -> vec_at v i = Val a.
Proof. unfold vec_at; intros ->; reflexivity. Qed.

Lemma vec_set_in_range (v : list A) (i : nat) (a : A) :
  (i < length v)%nat -> vec_set v i a = Val (vec_write v i a).
Proof.
  intros H; unfold vec_set.
  destruct (Nat.ltb_spec i (length v)); [reflexivity | lia].
Qed.

End VecFacts.

Lemma for_upto_inv {St : Type} (Inv : nat -> St -> Prop)
      (body : nat -> St -> Res St) (count start : nat) (s : St) :
  Inv start s ->
  (forall i t, (start <= i < start + count)%nat -> Inv i t ->
               exists t', body i t = Val t' /\ Inv (S i) t') ->
  exists s', for_upto count start body s = Val s' /\ Inv (start + count)%nat s'.
Proof.
  revert start s; induction count as [|c IH]; intros start s H0 Hstep; simpl.
  - exists s; split; [reflexivity | now rewrite Nat.add_0_r].
  - destruct (Hstep start s) as (t' & Hb & Hi); [lia | assumption |].
    rewrite Hb.
    destruct (IH (S start) t' Hi) as (s' & Hrun & Hend).
    + intros i t Hr Ht; apply Hstep; [lia | assumption].
    + exists s'; split; [assumption |].
      now replace (start + S c)%nat with (S start + c)%nat by lia.
Qed.

Lemma for_upto_fault {St : Type} (Inv : nat -> St -> Prop)
      (body : nat -> St -> Res St) (f : Fault) (count start : nat) (s : St) :
  Inv start s ->
  (forall i t, (start <= i < start + count)%nat -> Inv i t ->
               (exists t', body i t = Val t' /\ Inv (S i) t') \/ body i t = Err f) ->
  (exists j, (start <= j < start + count)%nat /\
             forall t, Inv j t -> body j t = Err f) ->
  for_upto count start body s = Err f.
Proof.
  revert start s; induction count as [|c IH]; intros start s H0 Hstep (j & Hj & Hbad).
  - lia.
  - simpl.
    destruct (Hstep start s) as [(t' & Hb & Hi) | Hb]; [lia | assumption | | now rewrite Hb].
    rewrite Hb.
    destruct (Nat.eq_dec j start) as [-> | Hne].
    + rewrite (Hbad s H0) in Hb; discriminate.
    + apply IH; [assumption | |].
      * intros i t Hr Ht; apply Hstep; [lia | assumption].
      * exists j; split; [lia | assumption].
Qed.

(** A loop whose iteration [i] stores [F i] at index [i] leaves the vector
    [F 0, F 1, ..., F (n-1)]. *)
Lemma for_upto_writes {A : Type} (F : nat -> A)
      (body : nat -> list A -> Res (list A)) (n : nat) (v : list A) :
  length v = n ->
  (forall i t, (i < n)%nat -> length t = n -> body i t = Val (vec_write t i (F i))) ->
  for_upto n 0 body v = Val (map F (seq 0 n)).
Proof.
  intros Hlen Hbody.
  destruct (@for_upto_inv (list A)
              (fun k t => length t = n /\
                          forall j, (j < k)%nat -> nth_error t j = Some (F j))
              body n 0 v) as (s' & Hrun & Hn & Hall).
  - split; [assumption | intros j Hj; lia].
  - intros i t Hi (Ht & Hpre).
    exists (vec_write t i (F i)); split; [apply Hbody; [lia | assumption] |].
    split; [now rewrite vec_write_length |].
    intros j Hj.
    destruct (Nat.eq_dec i j) as [<- | Hne].
    + apply nth_error_vec_write_same; lia.
    + rewrite nth_error_vec_write_other by assumption. apply Hpre; lia.
  - rewrite Hrun; f_equal.
    apply nth_error_ext; intros j.
    destruct (Nat.lt_ge_cases j n) as [Hj | Hj].
    + rewrite Hall by (simpl; lia).
      rewrite nth_error_map, nth_error_seq.
      destruct (Nat.ltb_spec j n); [reflexivity | lia].
    + transitivity (@None A); [| symmetry];
        apply nth_error_None; [| rewrite length_map, length_seq]; lia.
Qed.

(** ** The outline builder *)

Lemma source_index_in_range (m i : nat) :
  (i < m)%nat -> (source_index m i < m)%nat.
Proof.
  intros H; unfold source_index.
  destruct (Nat.eqb (i mod 2) 0); lia.
Qed.

Lemma source_index_parity (m i : nat) :
  source_index m i = if Nat.even i then (m - 1 - i)%nat else i.
Proof.
  unfold source_index.
  rewrite <- Nat.bit0_mod, Nat.bit0_odd, <- Nat.negb_even.
  destruct (Nat.even i); simpl; lia.
Qed.

Lemma nth_error_nth_default {A : Type} (l : list A) (i : nat) (d : A) :
  (i < length l)%nat -> nth_error l i = Some (nth i l d).
Proof.
  revert i; induction l as [|a l IH]; intros [|i] H; simpl in *; try lia; auto.
  apply IH; lia.
Qed.

Lemma outline_body_ok (es : list Element) (i : nat) (t : list QPointF.t) :
  all_move_or_line es -> (i < length es)%nat -> length t = length es ->
  outline_body es (length es) i t =
  Val (vec_write t i (toPointF (nth (source_index (length es) i) es no_element))).
Proof.
  intros Hall Hi Ht. unfold outline_body.
  rewrite (vec_at_Some _ _ _ (nth_error_nth_default es i no_element Hi)); simpl.
  assert (Hty : is_move_or_line (type (nth i es no_element)) = true).
  { apply (proj1 (Forall_forall _ es) Hall). apply nth_In; assumption. }
  rewrite Hty; simpl.
  rewrite (vec_at_Some _ _ _ (nth_error_nth_default es _ no_element
                              (source_index_in_range _ _ Hi))); simpl.
  apply vec_set_in_range; lia.
Qed.

Lemma build_outline_ok (es : list Element) :
  all_move_or_line es -> build_outline es = Val (reordered es).
Proof.
  intros Hall. unfold build_outline, reordered.
  apply for_upto_writes.
  - apply repeat_length.
  - intros i t Hi Ht. apply outline_body_ok; assumption.
Qed.

Lemma outline_body_step (es : list Element) (i : nat) (t : list QPointF.t) :
  (i < length es)%nat -> length t = length es ->
  (exists t', outline_body es (length es) i t = Val t' /\ length t' = length es)
  \/ outline_body es (length es) i t = Err AssertionFailed.
Proof.
  intros Hi Ht. unfold outline_body.
  rewrite (vec_at_Some _ _ _ (nth_error_nth_default es i no_element Hi)); simpl.
  destruct (is_move_or_line (type (nth i es no_element))); simpl; [left | now right].
  rewrite (vec_at_Some _ _ _ (nth_error_nth_default es _ no_element
                              (source_index_in_range _ _ Hi))); simpl.
  rewrite vec_set_in_range by lia.
  eexists; split; [reflexivity | now rewrite vec_write_length].
Qed.

Lemma build_outline_curve (es : list Element) :
  (exists e, In e es /\ is_move_or_line (type e) = false) ->
  build_outline es = Err AssertionFailed.
Proof.
  intros (e & Hin & Hty). unfold build_outline.
  apply (@for_upto_fault _ (fun _ t => length t = length es)).
  - apply repeat_length.
  - intros i t Hi Ht. apply outline_body_step; [lia | assumption].
  - destruct (In_nth_error _ _ Hin) as (j & Hj).
    assert (Hlt : (j < length es)%nat) by (apply nth_error_Some; congruence).
    exists j; split; [lia |].
    intros t _. unfold outline_body.
    rewrite (vec_at_Some _ _ _ Hj); simpl. now rewrite Hty.
Qed.

Lemma reordered_length (es : list Element) :
  length (reordered es) = length es.
Proof. unfold reordered. now rewrite length_map, length_seq. Qed.

Lemma reordered_nth_error (es : list Element) (i : nat) :
  (i < length es)%nat ->
  nth_error (reordered es) i =
  option_map toPointF
    (nth_error es (if Nat.even i then (length es - 1 - i)%nat else i)).
Proof.
  intros Hi. unfold reordered.
  rewrite nth_error_map, nth_error_seq.
  destruct (Nat.ltb_spec i (length es)); [simpl | lia].
  rewrite <- source_index_parity.
  now rewrite (nth_error_nth_default es _ no_element (source_index_in_range _ _ Hi)).
Qed.


(** ** The outline cache *)

Lemma key_eqb_refl (k : QCache.Key) : QCache.key_eqb k k = true.
Proof. unfold QCache.key_eqb. now rewrite !Qeq_bool_refl. Qed.


Lemma cache_find_In (c : QCache.t) (k : QCache.Key) (v : list QPointF.t) :
  QCache.find c k = Some v ->
  exists k', In (k', v) c /\ QCache.key_eqb k' k = true.
Proof.
  unfold QCache.find. intros H.
  destruct (find _ c) as [[k' v']|] eqn:E; simpl in H; [| discriminate].
  injection H as ->.
  apply find_some in E. destruct E as (Hin & Hk). now exists k'.
Qed.

Lemma cache_contains_find (c : QCache.t) (k : QCache.Key) :
  QCache.contains c k = true <-> exists v, QCache.find c k = Some v.
Proof.
  unfold QCache.contains, QCache.find. induction c as [|e c IH]; simpl.
  - split; [discriminate | intros (v & H); discriminate].
  - destruct (QCache.key_eqb (fst e) k); simpl.
    + split; [intros _; now exists (snd e) | reflexivity].
    + exact IH.
Qed.

Lemma cache_object_find (c : QCache.t) (k : QCache.Key) :
  fst (QCache.object c k) = QCache.find c k.
Proof.
  unfold QCache.object, QCache.find.
  now destruct (find _ c).
Qed.

Lemma cache_object_incl (c : QCache.t) (k : QCache.Key) :
  incl (snd (QCache.object c k)) c.
Proof.
  unfold QCache.object.
  destruct (find _ c) as [e|] eqn:E; simpl; [| apply incl_refl].
  intros x [<- | Hx].
  - now apply find_some in E.
  - unfold QCache.remove in Hx. now apply filter_In in Hx.
Qed.

Lemma cache_insert_incl (c : QCache.t) (k : QCache.Key) (v : list QPointF.t) :
  incl (QCache.insert c k v) ((k, v) :: c).
Proof.
  unfold QCache.insert.
  assert (Hrem : incl (QCache.remove c k) c).
  { intros x Hx. unfold QCache.remove in Hx. now apply filter_In in Hx. }
  destruct (QCache.maxCost <? 1)%nat.
  - intros x Hx. right. now apply Hrem.
  - intros x [<- | Hx]; [now left | right].
    apply Hrem.
    rewrite <- (firstn_skipn (QCache.maxCost - 1) (QCache.remove c k)).
    apply in_or_app; now left.
Qed.

Lemma cache_insert_find (c : QCache.t) (k : QCache.Key) (v : list QPointF.t) :
  QCache.find (QCache.insert c k v) k = Some v.
Proof.
  unfold QCache.insert, QCache.find.
  change (QCache.maxCost <? 1)%nat with false. simpl.
  now rewrite key_eqb_refl.
Qed.

(** ** Geometry objects in the heap *)

Lemma resize_length (n : nat) (v : list QSGGeometry.TexturedPoint2D) :
  length (QSGGeometry.resize n v) = n.
Proof.
  unfold QSGGeometry.resize.
  rewrite length_app, length_firstn, repeat_length. lia.
Qed.

Lemma updateTexturedRectGeometry_four (r s : QRectF.t) (g : QSGGeometry.t) :
  QSGGeometry.vertexCount g = 4%nat ->
  QSGGeometry.updateTexturedRectGeometry r s g =
  Val (QSGGeometry.setVertexData (plain_vertices r s) g).
Proof.
  unfold QSGGeometry.vertexCount, QSGGeometry.updateTexturedRectGeometry.
  destruct (QSGGeometry.vertexData g) as [|a [|b [|c [|d [|e v]]]]];
    simpl; intros H; try discriminate.
  reflexivity.
Qed.

Lemma map_nth_seq {A B : Type} (f : A -> B) (v : list A) (d : A) :
  map (fun i => f (nth i v d)) (seq 0 (length v)) = map f v.
Proof.
  apply nth_error_ext; intros j.
  rewrite !nth_error_map, nth_error_seq.
  destruct (Nat.ltb_spec j (length v)) as [Hj | Hj]; simpl.
  - now rewrite (nth_error_nth_default v j d Hj).
  - now rewrite (proj2 (nth_error_None v j) Hj).
Qed.

Lemma fill_rounded_map (shape : Shape) (atlasTexture : option QSGTexture)
      (s : QRectF.t) (v : list QPointF.t) (g : QSGGeometry.t) :
  QSGGeometry.vertexCount g = length v ->
  fill_rounded shape atlasTexture s (Some v) g =
  Val (QSGGeometry.setVertexData (map (textured_point shape atlasTexture s) v) g).
Proof.
  intros Hn. unfold fill_rounded. rewrite Hn.
  rewrite (@for_upto_writes _
             (fun i => textured_point shape atlasTexture s (nth i v (QPointF.mk 0 0)))).
  - simpl. now rewrite map_nth_seq.
  - exact Hn.
  - intros i t Hi Ht.
    rewrite (vec_at_Some _ _ _ (nth_error_nth_default v i (QPointF.mk 0 0) Hi)); simpl.
    apply vec_set_in_range; lia.
Qed.

Lemma nth_error_snoc_other {A : Type} (h : list A) (a : A) (q : nat) :
  q <> length h -> nth_error (h ++ [a]) q = nth_error h q.
Proof.
  intros Hq. destruct (Nat.lt_ge_cases q (length h)) as [Hlt | Hge].
  - now apply nth_error_app1.
  - rewrite (proj2 (nth_error_None h q) Hge).
    apply nth_error_None. rewrite length_app; simpl; lia.
Qed.

Lemma nth_error_snoc_last {A : Type} (h : list A) (a : A) :
  nth_error (h ++ [a]) (length h) = Some a.
Proof. rewrite nth_error_app2, Nat.sub_diag by lia. reflexivity. Qed.

Lemma modify_res_run (p : ptr) (f : QSGGeometry.t -> Res QSGGeometry.t)
      (W : World) (g g' : QSGGeometry.t) :
  nth_error (heap W) p = Some g -> f g = Val g' ->
  modify_res p f W = Val (tt, mkWorld (paths W) (vec_write (heap W) p g')).
Proof. intros Hp Hf. unfold modify_res. now rewrite Hp, Hf. Qed.

Lemma modify_run (p : ptr) (f : QSGGeometry.t -> QSGGeometry.t)
      (W : World) (g : QSGGeometry.t) :
  nth_error (heap W) p = Some g ->
  modify p f W = Val (tt, mkWorld (paths W) (vec_write (heap W) p (f g))).
Proof. intros Hp. unfold modify. now apply modify_res_run with (g := g). Qed.

Lemma cell_set_write (h h' : list QSGGeometry.t) (p : ptr) (g g' : QSGGeometry.t) :
  cell_set h h' p g -> cell_set h (vec_write h' p g') p g'.
Proof.
  intros (Hp & Hothers). split.
  - apply nth_error_vec_write_same. apply nth_error_Some. congruence.
  - intros q Hq. rewrite nth_error_vec_write_other by congruence. now apply Hothers.
Qed.

Lemma prepare_geometry_run (W : World) (geometry : option ptr) (n : nat) :
  geometry_ok W geometry ->
  exists h g,
    prepare_geometry geometry n W = Val (target W geometry, mkWorld (paths W) h)
    /\ cell_set (heap W) h (target W geometry) g
    /\ compatible g = true
    /\ QSGGeometry.vertexCount g = n.
Proof.
  destruct geometry as [p|]; simpl.
  - intros (g & Hp & Hc).
    exists (vec_write (heap W) p (QSGGeometry.allocate n g)), (QSGGeometry.allocate n g).
    assert (Hcell : cell_set (heap W) (vec_write (heap W) p (QSGGeometry.allocate n g))
                             p (QSGGeometry.allocate n g)).
    { apply cell_set_write with (g := g). split; auto. }
    split; [| split; [exact Hcell | split; [exact Hc | apply resize_length]]].
    unfold bind. rewrite (modify_run _ _ _ _ Hp).
    unfold deref; simpl. rewrite (proj1 Hcell).
    unfold compatible in Hc.
    apply andb_prop in Hc; destruct Hc as (Hc & H4).
    apply andb_prop in Hc; destruct Hc as (Hc & H3).
    apply andb_prop in Hc; destruct Hc as (H1 & H2).
    unfold assert, lift; simpl in *. rewrite H1, H2, H3, H4. reflexivity.
  - intros _.
    set (g0 := QSGGeometry.create QSGGeometry.TexturedPoint2D_set n).
    set (g1 := QSGGeometry.setIndexDataPattern QSGGeometry.StaticPattern g0).
    set (g2 := QSGGeometry.setVertexDataPattern QSGGeometry.StaticPattern g1).
    set (g3 := QSGGeometry.setDrawingMode QSGGeometry.DrawTriangleStrip g2).
    set (p := length (heap W)).
    assert (H0 : cell_set (heap W) (heap W ++ [g0]) p g0).
    { split; [apply nth_error_snoc_last | intros q Hq; now apply nth_error_snoc_other]. }
    pose proof (cell_set_write _ _ _ _ g1 H0) as H1.
    pose proof (cell_set_write _ _ _ _ g2 H1) as H2.
    pose proof (cell_set_write _ _ _ _ g3 H2) as H3.
    eexists; exists g3.
    split; [| split; [exact H3 | split; [reflexivity | apply repeat_length]]].
    unfold bind, new_geometry. fold p.
    rewrite (modify_run p _ (mkWorld (paths W) (heap W ++ [g0])) g0 (proj1 H0)); simpl.
    rewrite (modify_run p _ (mkWorld (paths W) _) g1 (proj1 H1)); simpl.
    rewrite (modify_run p _ (mkWorld (paths W) _) g2 (proj1 H2)); simpl.
    reflexivity.
Qed.

(** ** The static [rebuildGeometry] *)

Section StaticBuild.

Variable simplified : qreal -> qreal -> qreal -> list Element.

Lemma select_path_plain (shape : Shape) (W : World) :
  qFuzzyIsNull (radius shape) = true ->
  select_path simplified shape W = Val ((4%nat, None), W).
Proof. intros H. unfold select_path. now rewrite H. Qed.

Lemma select_path_hit (shape : Shape) (W : World) (v : list QPointF.t) :
  qFuzzyIsNull (radius shape) = false ->
  QCache.find (paths W) (shape_key shape) = Some v ->
  select_path simplified shape W =
  Val ((length v, Some v),
       mkWorld (snd (QCache.object (paths W) (shape_key shape))) (heap W)).
Proof.
  intros Hr Hfind. unfold select_path, cached_outline, bind, get_paths. rewrite Hr.
  rewrite (proj2 (cache_contains_find _ _) (ex_intro _ v Hfind)).
  pose proof (cache_object_find (paths W) (shape_key shape)) as Hobj.
  destruct (QCache.object (paths W) (shape_key shape)) as (o, c'); simpl in *.
  rewrite Hobj, Hfind. reflexivity.
Qed.

Lemma select_path_miss (shape : Shape) (W : World) :
  qFuzzyIsNull (radius shape) = false ->
  QCache.contains (paths W) (shape_key shape) = false ->
  select_path simplified shape W =
  match build_outline (elements_of simplified shape) with
  | Val v => Val ((length v, Some v),
                  mkWorld (QCache.insert (paths W) (shape_key shape) v) (heap W))
  | Err f => Err f
  end.
Proof.
  intros Hr Hmiss. unfold select_path, cached_outline, bind, get_paths. rewrite Hr, Hmiss.
  unfold elements_of, shape_key, lift; simpl.
  now destruct (build_outline _).
Qed.

(** Whatever the branch, a selection that returns leaves the heap alone and,
    for a rounded shape, hands out the vector the cache now holds for the
    key. *)
Lemma select_path_result (shape : Shape) (W W1 : World) (n : nat)
      (path : option (list QPointF.t)) :
  select_path simplified shape W = Val ((n, path), W1) ->
  heap W1 = heap W
  /\ (if qFuzzyIsNull (radius shape)
      then n = 4%nat /\ path = None /\ W1 = W
      else exists v, path = Some v /\ n = length v
                     /\ QCache.find (paths W1) (shape_key shape) = Some v).
Proof.
  intros Hrun.
  destruct (qFuzzyIsNull (radius shape)) eqn:Hr.
  - rewrite select_path_plain in Hrun by assumption.
    injection Hrun as <- <- <-. auto.
  - destruct (QCache.contains (paths W) (shape_key shape)) eqn:Hc.
    + destruct (proj1 (cache_contains_find _ _) Hc) as (v & Hfind).
      rewrite (select_path_hit _ _ _ Hr Hfind) in Hrun.
      injection Hrun as <- <- <-. split; [reflexivity |].
      exists v; repeat split.
      unfold QCache.object, QCache.find in *.
      destruct (find _ (paths W)) as [e|] eqn:E; [| discriminate].
      simpl in *. apply find_some in E. now rewrite (proj2 E).
    + rewrite (select_path_miss _ _ Hr Hc) in Hrun.
      destruct (build_outline (elements_of simplified shape)) as [v|f]; [| discriminate].
      injection Hrun as <- <- <-. split; [reflexivity |].
      exists v; repeat split. simpl. apply cache_insert_find.
Qed.

Lemma rebuildGeometry_invalid (shape : Shape) (geometry : option ptr)
      (atlasTexture : option QSGTexture) (W : World) :
  isValid shape = false ->
  rebuildGeometry simplified shape geometry atlasTexture W = Val (None, W).
Proof. intros H. unfold rebuildGeometry. now rewrite H. Qed.

Lemma rebuildGeometry_select_fault (shape : Shape) (geometry : option ptr)
      (atlasTexture : option QSGTexture) (W : World) (f : Fault) :
  isValid shape = true ->
  select_path simplified shape W = Err f ->
  rebuildGeometry simplified shape geometry atlasTexture W = Err f.
Proof.
  intros Hv Hs. unfold rebuildGeometry. rewrite Hv; simpl.
  unfold bind at 1. now rewrite Hs.
Qed.

(** The run of a build on a valid shape once the outline is selected. *)
Lemma rebuildGeometry_run (shape : Shape) (geometry : option ptr)
      (atlasTexture : option QSGTexture) (W W1 : World) (n : nat)
      (path : option (list QPointF.t)) :
  isValid shape = true ->
  select_path simplified shape W = Val ((n, path), W1) ->
  geometry_ok W geometry ->
  exists h g,
    rebuildGeometry simplified shape geometry atlasTexture W
    = Val (Some (target W geometry), mkWorld (paths W1) h)
    /\ cell_set (heap W) h (target W geometry) g
    /\ QSGGeometry.vertexData g = built_vertices shape atlasTexture path
    /\ compatible g = true
    /\ QSGGeometry.indexDataDirty g = true
    /\ QSGGeometry.vertexDataDirty g = true.
Proof.
  intros Hv Hsel Hok.
  destruct (select_path_result _ _ _ _ _ Hsel) as (Hheap & Hshape).
  assert (Hok1 : geometry_ok W1 geometry).
  { destruct geometry; simpl in *; [now rewrite Hheap | exact I]. }
  destruct (prepare_geometry_run W1 geometry n Hok1) as (h1 & g1 & Hprep & Hc1 & Hcompat & Hcount).
  assert (Ht : target W1 geometry = target W geometry).
  { destruct geometry; simpl; [reflexivity | now rewrite Hheap]. }
  rewrite Ht, Hheap in *.
  set (p := target W geometry) in *.
  set (s := texNormalSubRect_of atlasTexture).
  set (vs := built_vertices shape atlasTexture path).
  set (g2 := QSGGeometry.setVertexData vs g1).
  set (g3 := QSGGeometry.markIndexDataDirty g2).
  set (g4 := QSGGeometry.markVertexDataDirty g3).
  pose proof (cell_set_write _ _ _ _ g2 Hc1) as Hc2.
  pose proof (cell_set_write _ _ _ _ g3 Hc2) as Hc3.
  pose proof (cell_set_write _ _ _ _ g4 Hc3) as Hc4.
  eexists; exists g4.
  split; [| split; [exact Hc4 | split; [reflexivity | split; [exact Hcompat | split; reflexivity]]]].
  unfold rebuildGeometry. rewrite Hv; simpl.
  unfold bind at 1. rewrite Hsel; simpl.
  unfold bind at 1. rewrite Hprep.
  assert (Hfill :
    (if qFuzzyIsNull (radius shape)
     then modify_res p (QSGGeometry.updateTexturedRectGeometry (rect shape) s)
     else modify_res p (fill_rounded shape atlasTexture s path))
      (mkWorld (paths W1) h1)
    = Val (tt, mkWorld (paths W1) (vec_write h1 p g2))).
  { subst g2 vs. unfold built_vertices. fold s.
    destruct (qFuzzyIsNull (radius shape)).
    - destruct Hshape as (-> & _ & _).
      apply (modify_res_run p _ (mkWorld (paths W1) h1) g1 _ (proj1 Hc1)).
      now apply updateTexturedRectGeometry_four.
    - destruct Hshape as (v & -> & -> & _).
      apply (modify_res_run p _ (mkWorld (paths W1) h1) g1 _ (proj1 Hc1)).
      now apply fill_rounded_map. }
  unfold bind at 1. fold s. rewrite Hfill.
  unfold bind at 1.
  rewrite (modify_run p _ (mkWorld (paths W1) _) g2 (proj1 Hc2)); simpl.
  unfold bind at 1.
  rewrite (modify_run p _ (mkWorld (paths W1) _) g3 (proj1 Hc3)); simpl.
  reflexivity.
Qed.

(** A preparation that returns was given a usable geometry argument. *)
Lemma prepare_geometry_Val (W W2 : World) (geometry : option ptr) (n : nat) (p : ptr) :
  prepare_geometry geometry n W = Val (p, W2) -> geometry_ok W geometry.
Proof.
  destruct geometry as [q|]; simpl; [| trivial].
  unfold bind at 1. unfold modify, modify_res.
  destruct (nth_error (heap W) q) as [g|] eqn:Hq; [| discriminate].
  unfold bind at 1. unfold deref. simpl.
  assert (Hlt : (q < length (heap W))%nat) by (apply nth_error_Some; congruence).
  rewrite (nth_error_vec_write_same _ _ _ Hlt).
  unfold bind, assert, lift, rassert. simpl.
  intros H. exists g; split; [reflexivity |].
  unfold compatible.
  destruct (QSGGeometry.pattern_eqb (QSGGeometry.indexDataPattern g) _); [| discriminate].
  destruct (QSGGeometry.pattern_eqb (QSGGeometry.vertexDataPattern g) _); [| discriminate].
  destruct (QSGGeometry.is_triangle_strip _); [| discriminate].
  destruct (QSGGeometry.is_textured_point2d _); [reflexivity | discriminate].
Qed.

(** A build of a valid shape that returns went through a selection that
    returned, on a usable geometry argument. *)
Lemma rebuildGeometry_Val_inv (shape : Shape) (geometry : option ptr)
      (atlasTexture : option QSGTexture) (W W' : World) (r : option ptr) :
  isValid shape = true ->
  rebuildGeometry simplified shape geometry atlasTexture W = Val (r, W') ->
  exists n path W1,
    select_path simplified shape W = Val ((n, path), W1)
    /\ geometry_ok W geometry.
Proof.
  intros Hv Hrun. unfold rebuildGeometry in Hrun. rewrite Hv in Hrun; simpl in Hrun.
  unfold bind at 1 in Hrun.
  destruct (select_path simplified shape W) as [[[n path] W1]|f] eqn:Hsel;
    [| discriminate].
  exists n, path, W1; split; [reflexivity |].
  simpl in Hrun. unfold bind at 1 in Hrun.
  destruct (prepare_geometry geometry n W1) as [[p W2]|f] eqn:Hprep; [| discriminate].
  apply prepare_geometry_Val in Hprep.
  destruct (select_path_result _ _ _ _ _ Hsel) as (Hheap & _).
  destruct geometry; simpl in *; [now rewrite <- Hheap | exact I].
Qed.

End StaticBuild.

(** ** Validity, fuzzy comparison *)

Lemma Qle_bool_false (a b : Q) : Qle_bool a b = false <-> b < a.
Proof.
  split; intros H.
  - apply Qnot_le_lt. intros Hle. apply Qle_bool_iff in Hle. congruence.
  - destruct (Qle_bool a b) eqn:E; [| reflexivity].
    apply Qle_bool_iff in E. exfalso. now apply (Qlt_not_le b a).
Qed.

Lemma isValid_true (s : Shape) :
  isValid s = true <->
  0 < QRectF.width (rect s) /\ 0 < QRectF.height (rect s) /\ 0 <= radius s.
Proof.
  unfold isValid, QRectF.isEmpty.
  rewrite andb_true_iff, negb_true_iff, orb_false_iff, !Qle_bool_false, Qle_bool_iff.
  tauto.
Qed.

Lemma isValid_false (s : Shape) :
  isValid s = false <-> QRectF.isEmpty (rect s) = true \/ radius s < 0.
Proof.
  unfold isValid.
  rewrite andb_false_iff, negb_false_iff, Qle_bool_false. tauto.
Qed.

Lemma qAbs_Qabs (t : qreal) : qAbs t == Qabs t.
Proof.
  unfold qAbs. destruct (Qle_bool 0 t) eqn:E.
  - apply Qle_bool_iff in E. symmetry. now apply Qabs_pos.
  - apply Qle_bool_false in E. symmetry. apply Qabs_neg. lra.
Qed.

Lemma qMin_Qmin (a b : qreal) : qMin a b == Qmin a b.
Proof.
  unfold qMin, Qlt_bool. destruct (Qle_bool b a) eqn:E; simpl.
  - apply Qle_bool_iff in E. symmetry. now apply Q.min_r.
  - apply Qle_bool_false in E. symmetry. apply Q.min_l. lra.
Qed.

Lemma qFuzzyCompare_spec (a b : qreal) :
  qFuzzyCompare a b = true <->
  Qabs (a - b) * 1000000000000 <= Qmin (Qabs a) (Qabs b).
Proof.
  unfold qFuzzyCompare. rewrite Qle_bool_iff.
  rewrite qMin_Qmin, !qAbs_Qabs. reflexivity.
Qed.

Lemma qFuzzyCompare_refl (a : qreal) : qFuzzyCompare a a = true.
Proof.
  apply qFuzzyCompare_spec.
  assert (H : a - a == 0) by ring.
  rewrite H. simpl Qabs at 1.
  apply Q.min_glb; rewrite Qmult_0_l; apply Qabs_nonneg.
Qed.

Lemma build_outline_Val (es : list Element) (v : list QPointF.t) :
  build_outline es = Val v -> all_move_or_line es /\ v = reordered es.
Proof.
  intros H.
  destruct (Forall_Exists_dec (fun e => is_move_or_line (type e) = true)
              (fun e => bool_dec (is_move_or_line (type e)) true) es) as [Hall | Hex].
  - split; [exact Hall |].
    rewrite (build_outline_ok es Hall) in H. now injection H as <-.
  - apply Exists_exists in Hex. destruct Hex as (e & Hin & Hne).
    rewrite build_outline_curve in H; [discriminate |].
    exists e; split; [assumption | now destruct (is_move_or_line (type e))].
Qed.

(** ** Invariants of the cache and of the node *)

Section Invariants.

Variable simplified : qreal -> qreal -> qreal -> list Element.

Lemma cache_sound_empty : cache_sound simplified QCache.empty.
Proof. intros k v []. Qed.

Lemma cache_sound_incl (c c' : QCache.t) :
  incl c' c -> cache_sound simplified c -> cache_sound simplified c'.
Proof. intros Hi Hs k v Hin. apply Hs. now apply Hi. Qed.

Lemma select_path_total (shape : Shape) (W : World) :
  isValid shape = true -> outline_available simplified W shape ->
  exists n path W1, select_path simplified shape W = Val ((n, path), W1).
Proof.
  intros Hv Hav.
  destruct (qFuzzyIsNull (radius shape)) eqn:Hr.
  - rewrite select_path_plain by assumption. eauto.
  - destruct (QCache.contains (paths W) (shape_key shape)) eqn:Hc.
    + destruct (proj1 (cache_contains_find _ _) Hc) as (v & Hfind).
      rewrite (select_path_hit simplified _ _ _ Hr Hfind). eauto.
    + rewrite (select_path_miss simplified _ _ Hr Hc).
      destruct (Hav Hv Hr) as [Hhit | Hall]; [congruence |].
      rewrite (build_outline_ok _ Hall). eauto.
Qed.

Lemma select_path_sound (shape : Shape) (W W1 : World) (n : nat)
      (path : option (list QPointF.t)) :
  isValid shape = true -> cache_sound simplified (paths W) ->
  select_path simplified shape W = Val ((n, path), W1) ->
  cache_sound simplified (paths W1).
Proof.
  intros Hv Hs Hrun.
  destruct (qFuzzyIsNull (radius shape)) eqn:Hr.
  - rewrite select_path_plain in Hrun by assumption. now injection Hrun as _ _ <-.
  - destruct (QCache.contains (paths W) (shape_key shape)) eqn:Hc.
    + destruct (proj1 (cache_contains_find _ _) Hc) as (v & Hfind).
      rewrite (select_path_hit simplified _ _ _ Hr Hfind) in Hrun.
      injection Hrun as _ _ <-. simpl.
      eapply cache_sound_incl; [apply cache_object_incl | exact Hs].
    + rewrite (select_path_miss simplified _ _ Hr Hc) in Hrun.
      destruct (build_outline (elements_of simplified shape)) as [v|f] eqn:Hb;
        [| discriminate].
      injection Hrun as _ _ <-. simpl.
      intros k u Hin. apply cache_insert_incl in Hin.
      destruct Hin as [Heq | Hin]; [| now apply Hs].
      injection Heq as <- <-. apply isValid_true in Hv.
      destruct (build_outline_Val _ _ Hb) as (_ & ->).
      unfold shape_key, elements_of; simpl. tauto.
Qed.

(** The cache invariant survives every build. *)
Lemma rebuildGeometry_sound (shape : Shape) (geometry : option ptr)
      (atlasTexture : option QSGTexture) (W W' : World) (r : option ptr) :
  cache_sound simplified (paths W) ->
  rebuildGeometry simplified shape geometry atlasTexture W = Val (r, W') ->
  cache_sound simplified (paths W').
Proof.
  intros Hs Hrun.
  destruct (isValid shape) eqn:Hv.
  - destruct (rebuildGeometry_Val_inv _ _ _ _ _ _ _ Hv Hrun) as (n & path & W1 & Hsel & Hok).
    destruct (rebuildGeometry_run simplified _ _ atlasTexture _ _ _ _ Hv Hsel Hok)
      as (h & g & Hrun' & _).
    rewrite Hrun' in Hrun. injection Hrun as _ <-. simpl.
    exact (select_path_sound _ _ _ _ _ Hv Hs Hsel).
  - rewrite rebuildGeometry_invalid in Hrun by assumption.
    now injection Hrun as _ <-.
Qed.

(** A live object that carries what the build asserts stays one across
    every build, whichever geometry the build was given. *)
Lemma rebuildGeometry_keeps_cells (shape : Shape) (geometry : option ptr)
      (atlasTexture : option QSGTexture) (W W' : World) (r q : option ptr) :
  geometry_ok W q ->
  rebuildGeometry simplified shape geometry atlasTexture W = Val (r, W') ->
  geometry_ok W' q.
Proof.
  intros Hq Hrun.
  destruct (isValid shape) eqn:Hv.
  - destruct (rebuildGeometry_Val_inv _ _ _ _ _ _ _ Hv Hrun) as (n & path & W1 & Hsel & Hok).
    destruct (rebuildGeometry_run simplified _ _ atlasTexture _ _ _ _ Hv Hsel Hok)
      as (h & g & Hrun' & Hcell & _ & Hc & _).
    rewrite Hrun' in Hrun. injection Hrun as _ <-.
    destruct q as [q|]; [| exact I]. simpl in *.
    destruct (Nat.eq_dec q (target W geometry)) as [-> | Hne].
    + exists g. split; [exact (proj1 Hcell) | exact Hc].
    + rewrite (proj2 Hcell q Hne). exact Hq.
  - rewrite rebuildGeometry_invalid in Hrun by assumption.
    now injection Hrun as _ <-.
Qed.

End Invariants.

(** ** The node facade *)

Section Facade.

Variable simplified : qreal -> qreal -> qreal -> list Element.
Variable QRectF_eq : QRectF.t -> QRectF.t -> bool.

Lemma rebuildGeometry_shape_null (shape : Shape) (n : Node) (W : World) :
  m_texture n = None ->
  rebuildGeometry_shape simplified shape n W = Err NullPointer.
Proof. intros H. unfold rebuildGeometry_shape. simpl. now rewrite H. Qed.

Lemma rebuildGeometry_shape_invalid (shape : Shape) (n : Node) (W : World)
      (t : QSGTexture) :
  m_texture n = Some t -> isValid shape = false ->
  rebuildGeometry_shape simplified shape n W = Val ((false, count_rebuild n), W).
Proof.
  intros Ht Hv. unfold rebuildGeometry_shape. simpl. rewrite Ht.
  now rewrite rebuildGeometry_invalid by assumption.
Qed.

Lemma rebuildGeometry_shape_fault (shape : Shape) (n : Node) (W : World)
      (t : QSGTexture) (f : Fault) :
  m_texture n = Some t -> isValid shape = true ->
  select_path simplified shape W = Err f ->
  rebuildGeometry_shape simplified shape n W = Err f.
Proof.
  intros Ht Hv Hs. unfold rebuildGeometry_shape. simpl. rewrite Ht.
  now rewrite (rebuildGeometry_select_fault simplified _ _ _ _ _ Hv Hs).
Qed.

Lemma rebuildGeometry_shape_run (shape : Shape) (n : Node) (W W1 : World)
      (t : QSGTexture) (k : nat) (path : option (list QPointF.t)) :
  m_texture n = Some t -> isValid shape = true ->
  geometry_ok W (geometry n) ->
  select_path simplified shape W = Val ((k, path), W1) ->
  exists h g n',
    rebuildGeometry_shape simplified shape n W = Val ((true, n'), mkWorld (paths W1) h)
    /\ geometry n' = Some (target W (geometry n))
    /\ cell_set (heap W) h (target W (geometry n)) g
    /\ QSGGeometry.vertexData g = built_vertices shape (atlas_argument t) path
    /\ compatible g = true
    /\ m_texture n' = m_texture n /\ m_shape n' = m_shape n
    /\ materialTexture n' = materialTexture n
    /\ opaqueMaterialTexture n' = opaqueMaterialTexture n
    /\ dirtyLog n' = DirtyGeometry :: dirtyLog n
    /\ rebuildCalls n' = S (rebuildCalls n).
Proof.
  intros Ht Hv Hok Hsel.
  destruct (rebuildGeometry_run simplified _ _ (atlas_argument t) _ _ _ _ Hv Hsel Hok)
    as (h & g & Hrun & Hcell & Hvd & Hc & _).
  unfold rebuildGeometry_shape. simpl. rewrite Ht.
  fold (atlas_argument t). rewrite Hrun.
  exists h, g.
  destruct (geometry n) as [q|] eqn:Hg; simpl in *.
  - rewrite Nat.eqb_refl.
    eexists; split; [reflexivity |]; simpl. rewrite Hg. tauto.
  - eexists; split; [reflexivity |]; simpl. tauto.
Qed.

(** The node keeps a usable geometry pointer across a rebuild. *)
Lemma cell_set_geometry_ok (W : World) (h : list QSGGeometry.t) (p : ptr)
      (g : QSGGeometry.t) (c : QCache.t) :
  cell_set (heap W) h p g -> compatible g = true ->
  geometry_ok (mkWorld c h) (Some p).
Proof. intros (Hp & _) Hc. exists g; split; assumption. Qed.

(** A facade rebuild that returns keeps the geometry pointer usable and the
    cache sound; it needs a texture and leaves texture and shape alone. *)
Lemma rebuildGeometry_shape_Val (shape : Shape) (n n' : Node) (W W' : World)
      (b : bool) :
  geometry_ok W (geometry n) -> cache_sound simplified (paths W) ->
  rebuildGeometry_shape simplified shape n W = Val ((b, n'), W') ->
  geometry_ok W' (geometry n') /\ cache_sound simplified (paths W')
  /\ m_texture n <> None /\ m_texture n' = m_texture n /\ m_shape n' = m_shape n.
Proof.
  intros Hok Hs Hrun.
  destruct (m_texture n) as [t|] eqn:Ht;
    [| rewrite rebuildGeometry_shape_null in Hrun by assumption; discriminate].
  destruct (isValid shape) eqn:Hv.
  - destruct (select_path simplified shape W) as [[[k path] W1]|f] eqn:Hsel.
    + destruct (rebuildGeometry_shape_run shape n W W1 t k path Ht Hv Hok Hsel)
        as (h & g & n1 & Hrun1 & Hg & Hcell & _ & Hc & Htex & Hsh & _).
      rewrite Hrun1 in Hrun. injection Hrun as _ <- <-.
      split; [rewrite Hg; now apply (cell_set_geometry_ok W h _ g) |].
      split; [simpl; exact (select_path_sound simplified _ _ _ _ _ Hv Hs Hsel) |].
      split; [discriminate |]. split; congruence.
    + rewrite (rebuildGeometry_shape_fault shape n W t f Ht Hv Hsel) in Hrun.
      discriminate.
  - rewrite (rebuildGeometry_shape_invalid shape n W t Ht Hv) in Hrun.
    injection Hrun as _ <- <-. simpl.
    split; [exact Hok |]. split; [exact Hs |].
    split; [discriminate |]. split; [exact Ht | reflexivity].
Qed.

(** The invariant holds in every reachable state. *)
Lemma reachable_invariant (n : Node) (W : World) :
  reachable simplified QRectF_eq n W -> node_invariant simplified n W.
Proof.
  induction 1 as [W Hs | n n' W W' s b _ (Hok & Hs & Hnull) Hrun
                  | n n' W W' t _ (Hok & Hs & Hnull) Hrun
                  | n n' W W' b _ (Hok & Hs & Hnull) Hrun
                  | n n' W W' s b _ (Hok & Hs & Hnull) Hrun
                  | n W W' s g r a _ (Hok & Hs & Hnull) Hrun].
  - split; [exact I |]. split; [exact Hs | intros _; split; reflexivity].
  - unfold setShape in Hrun.
    destruct (Shape_eq QRectF_eq (m_shape n) s).
    + injection Hrun as _ <- <-. split; [exact Hok |]. split; [exact Hs | exact Hnull].
    + destruct (rebuildGeometry_shape simplified s n W) as [[[r n1] W1]|f] eqn:Hr;
        [| discriminate].
      destruct (rebuildGeometry_shape_Val _ _ _ _ _ _ Hok Hs Hr)
        as (Hok1 & Hs1 & Htex & Htex1 & _).
      injection Hrun as _ <- <-.
      assert (Hg : geometry (if r then set_m_shape s n1 else n1) = geometry n1)
        by (now destruct r).
      assert (Ht : m_texture (if r then set_m_shape s n1 else n1) = m_texture n1)
        by (now destruct r).
      split; [now rewrite Hg |]. split; [exact Hs1 |].
      rewrite Ht, Htex1. intros Hn. contradiction.
  - unfold setTexture in Hrun.
    set (n1 := set_m_texture (Some t) n) in *.
    destruct ((match m_texture n with
               | Some old => isAtlasTexture old
               | None => true
               end) || isAtlasTexture t).
    + destruct (rebuildGeometry_current simplified n1 W) as [[[r n2] W2]|f] eqn:Hr;
        [| discriminate].
      destruct (rebuildGeometry_shape_Val (m_shape n1) n1 n2 W W2 r Hok Hs Hr)
        as (Hok2 & Hs2 & _ & Htex2 & _).
      injection Hrun as <- <-. simpl.
      split; [exact Hok2 |]. split; [exact Hs2 |].
      change (m_texture n2 = None -> geometry n2 = None /\ m_shape n2 = default_Shape).
      rewrite Htex2. simpl. discriminate.
    + injection Hrun as <- <-. simpl.
      split; [exact Hok |]. split; [exact Hs | discriminate].
  - destruct (rebuildGeometry_shape_Val _ _ _ _ _ _ Hok Hs Hrun)
      as (Hok1 & Hs1 & Htex & Htex1 & _).
    split; [exact Hok1 |]. split; [exact Hs1 |].
    rewrite Htex1. intros Hn. contradiction.
  - destruct (rebuildGeometry_shape_Val _ _ _ _ _ _ Hok Hs Hrun)
      as (Hok1 & Hs1 & Htex & Htex1 & _).
    split; [exact Hok1 |]. split; [exact Hs1 |].
    rewrite Htex1. intros Hn. contradiction.
  - split; [exact (rebuildGeometry_keeps_cells simplified _ _ _ _ _ _ _ Hok Hrun) |].
    split; [exact (rebuildGeometry_sound simplified _ _ _ _ _ _ Hs Hrun) | exact Hnull].
Qed.

(** The states reached through the setters are states of the node. *)
Lemma setter_reachable_reachable (n : Node) (W : World) :
  setter_reachable simplified QRectF_eq n W -> reachable simplified QRectF_eq n W.
Proof.
  induction 1 as [W Hs | n n' W W' s b _ IH Hrun
                  | n n' W W' t _ IH Hrun
                  | n n' W W' b _ IH Hrun].
  - now apply reach_new.
  - exact (reach_setShape _ _ _ _ _ _ _ _ IH Hrun).
  - exact (reach_setTexture _ _ _ _ _ _ _ IH Hrun).
  - exact (reach_rebuildGeometry _ _ _ _ _ _ _ IH Hrun).
Qed.

End Facade.

(** ** Runs on the sample data *)

(** The sample node is the new node after [setTexture] of a non-atlas
    texture: the first texture enters a rebuild, which the default shape
    fails. *)
Example textured_Node_reached :
  setTexture Samples.chamfered (Some Samples.plain_texture) new_Node Samples.empty_World
  = Val ((tt, Samples.textured_Node), Samples.empty_World).
Proof. reflexivity. Qed.

(** [rect = (0,0,100,50)], [r = 0], non-atlas texture: four vertices at the
    corners, with the corners of the unit square. *)
Example plain_100x50_run :
  exists n' W' g,
    setShape Samples.chamfered QRectF.exact_eq (mkShape Samples.rect_100x50 0)
             Samples.textured_Node Samples.empty_World = Val ((true, n'), W')
    /\ geometry n' = Some 0%nat
    /\ nth_error (heap W') 0 = Some g
    /\ QSGGeometry.vertexData g
       = [ QSGGeometry.mkTP 0 0 0 0; QSGGeometry.mkTP 0 50 0 1;
           QSGGeometry.mkTP 100 0 1 0; QSGGeometry.mkTP 100 50 1 1 ].
Proof.
  do 3 eexists. split; [vm_compute; reflexivity |].
  split; [reflexivity |]. split; reflexivity.
Qed.

(** Conversions to [float] and to binary64 on known values: 2^24 + 1 and
    2^24 + 3 lie half way between two [float]s and go to the even
    neighbour, 0.1 and 0.6 are rounded, 2^-150 is half the least subnormal
    [float] and goes to zero, values of the format are kept. *)
Example rounding_samples :
  to_float 16777217 = 16777216
  /\ to_float 16777219 = 16777220
  /\ to_float 0.1 = 13421773 # 134217728
  /\ IEEE.binary64 0.1 = 3602879701896397 # 36028797018963968
  /\ to_float (IEEE.binary64 0.6) = 5033165 # 8388608
  /\ to_float (1 # 2 ^ 150) = 0
  /\ to_float (3 # 2 ^ 150) = 1 # 2 ^ 148
  /\ to_float (- (3 # 4)) = - (3 # 4)
  /\ IEEE.binary64 16777217 = 16777217
  /\ qreal_add (IEEE.binary64 0.1) (IEEE.binary64 0.2)
     = 1351079888211149 # 4503599627370496.
Proof. vm_compute. repeat split. Qed.

(** The eight elements of the sample outline for 100x50, radius 10, and
    their reorder; with an even element count the loop reads the odd
    positions of the stream only. *)
Example chamfered_reorder_run :
  build_outline (Samples.chamfered 100 50 10)
  = Val (map toPointF
           [ mkElement 0 10 LineToElement; mkElement (100 - 10) 0 LineToElement;
             mkElement 10 50 LineToElement; mkElement 100 (50 - 10) LineToElement;
             mkElement 100 (50 - 10) LineToElement; mkElement 10 50 LineToElement;
             mkElement (100 - 10) 0 LineToElement; mkElement 0 10 LineToElement ]).
Proof. vm_compute. reflexivity. Qed.

(** A second build of the same size and radius is served from the cache,
    reuses the geometry it is given, and allocates nothing. *)
Example cache_hit_run :
  exists W',
    rebuildGeometry Samples.chamfered (mkShape Samples.rect_at_10_20 10)
                    (Some 0%nat) None Samples.warm_World = Val (Some 0%nat, W')
    /\ length (heap W') = length (heap Samples.warm_World)
    /\ length (paths W') = length (paths Samples.warm_World).
Proof.
  eexists. split; [vm_compute; reflexivity |]. split; reflexivity.
Qed.

(** * The claims *)

(** C1.  A build of a valid rounded shape that misses the outline cache
    enumerates the M elements of the simplified painter path in order and
    produces the point sequence P of the same length with, for every
    [i < M], P[i] = element [M-1-i] when [i] is even and P[i] = element [i]
    when [i] is odd; P is what the build caches for the key and what it
    turns into vertices. *)
Theorem outline_is_symmetric_reorder
        (simplified : qreal -> qreal -> qreal -> list Element)
        (shape : Shape) (geometry : option ptr)
        (atlasTexture : option QSGTexture) (W : World) :
  isValid shape = true ->
  qFuzzyIsNull (radius shape) = false ->
  QCache.contains (paths W) (shape_key shape) = false ->
  all_move_or_line (elements_of simplified shape) ->
  geometry_ok W geometry ->
  let es := elements_of simplified shape in
  let M := length es in
  exists P h g,
    build_outline es = Val P
    /\ rebuildGeometry simplified shape geometry atlasTexture W
       = Val (Some (target W geometry),
              mkWorld (QCache.insert (paths W) (shape_key shape) P) h)
    /\ nth_error h (target W geometry) = Some g
    /\ QSGGeometry.vertexData g
       = map (textured_point shape atlasTexture (texNormalSubRect_of atlasTexture)) P
    /\ length P = M
    /\ forall i, (i < M)%nat ->
         (Nat.even i = true ->
          nth_error P i = option_map toPointF (nth_error es (M - 1 - i)))
         /\ (Nat.even i = false ->
             nth_error P i = option_map toPointF (nth_error es i)).
Proof.
  intros Hv Hr Hmiss Hall Hok es M.
  pose proof (select_path_miss simplified _ _ Hr Hmiss) as Hsel.
  fold es in Hsel. rewrite (build_outline_ok es Hall) in Hsel.
  destruct (rebuildGeometry_run simplified _ _ atlasTexture _ _ _ _ Hv Hsel Hok)
    as (h & g & Hrun & (Hcell & _) & Hvd & _).
  exists (reordered es), h, g.
  split; [now apply build_outline_ok |].
  split; [exact Hrun |].
  split; [exact Hcell |].
  split; [unfold built_vertices in Hvd; now rewrite Hr in Hvd |].
  split; [apply reordered_length |].
  intros i Hi. pose proof (reordered_nth_error es i Hi) as Hn. fold M in Hn.
  split; intros He; rewrite He in Hn; exact Hn.
Qed.

Lemma outline_is_symmetric_reorder_witness :
  let shape := mkShape Samples.rect_at_10_20 10 in
  let es := elements_of Samples.chamfered shape in
  isValid shape = true
  /\ qFuzzyIsNull (radius shape) = false
  /\ QCache.contains (paths Samples.empty_World) (shape_key shape) = false
  /\ exists P h g,
       build_outline es = Val P
       /\ rebuildGeometry Samples.chamfered shape None None Samples.empty_World
          = Val (Some (target Samples.empty_World None),
                 mkWorld (QCache.insert (paths Samples.empty_World) (shape_key shape) P) h)
       /\ nth_error h (target Samples.empty_World None) = Some g
       /\ QSGGeometry.vertexData g
          = map (textured_point shape None (texNormalSubRect_of None)) P
       /\ length P = length es
       /\ forall i, (i < length es)%nat ->
            (Nat.even i = true ->
             nth_error P i = option_map toPointF (nth_error es (length es - 1 - i)))
            /\ (Nat.even i = false ->
                nth_error P i = option_map toPointF (nth_error es i)).
Proof.
  intros shape es.
  split; [reflexivity |].
  split; [reflexivity |].
  split; [reflexivity |].
  apply (outline_is_symmetric_reorder Samples.chamfered shape None None
                                      Samples.empty_World).
  - reflexivity.
  - reflexivity.
  - reflexivity.
  - repeat constructor.
  - exact I.
Defined.

(** C2, as stated, fails: the vertex holds [float]s and the operations are
    those of binary64.  For the 100x50 shape at (10,20) with radius 10 and
    the atlas sub-rect (0.25, 0.5, 0.5, 0.5), the first outline point is
    (0,10); the formula of the claim gives the v coordinate 3/5, which is
    no [float], and the vertex holds 5033165/8388608. *)
Lemma rounded_vertex_exact_formula_counterexample :
  let shape := mkShape Samples.rect_at_10_20 10 in
  let S := normalizedTextureSubRect Samples.atlas_texture in
  isValid shape = true
  /\ qFuzzyIsNull (radius shape) = false
  /\ exists path W' g p v,
       rebuildGeometry Samples.chamfered shape None (Some Samples.atlas_texture)
                       Samples.empty_World = Val (Some 0%nat, W')
       /\ QCache.find (paths W') (shape_key shape) = Some path
       /\ nth_error (heap W') 0 = Some g
       /\ nth_error path 0 = Some p
       /\ nth_error (QSGGeometry.vertexData g) 0 = Some v
       /\ QRectF.y S + QRectF.height S * (QPointF.y p / QRectF.height (rect shape))
          == 3 # 5
       /\ QSGGeometry.ty v = 5033165 # 8388608
       /\ ~ QSGGeometry.ty v
            == QRectF.y S + QRectF.height S * (QPointF.y p / QRectF.height (rect shape)).
Proof.
  intros shape S.
  split; [reflexivity |].
  split; [reflexivity |].
  do 5 eexists.
  split; [vm_compute; reflexivity |].
  split; [vm_compute; reflexivity |].
  split; [reflexivity |].
  split; [reflexivity |].
  split; [reflexivity |].
  split; [reflexivity |].
  split; [reflexivity |].
  intro H. vm_compute in H. discriminate H.
Qed.

(** C2, amended.  For a valid shape whose radius is not fuzzily zero, the
    build turns every point [p] of the outline in use (the vector the cache
    holds for the key) into the vertex at the same index, whose four
    fields are the [float]s nearest to the position
    [(p.x + rect.x, p.y + rect.y)] and, with [uv_local = (p.x / w, p.y / h)],
    to the texture coordinate [(S.x + S.w * uv_local.x, S.y + S.h * uv_local.y)]
    when an atlas texture with sub-rect [S] is passed and to [uv_local]
    when none is, every sum, product and quotient being the binary64
    operation. *)
Theorem rounded_vertices_follow_outline
        (simplified : qreal -> qreal -> qreal -> list Element)
        (shape : Shape) (geometry : option ptr)
        (atlasTexture : option QSGTexture) (W : World) :
  isValid shape = true ->
  qFuzzyIsNull (radius shape) = false ->
  outline_available simplified W shape ->
  geometry_ok W geometry ->
  exists path W' g,
    rebuildGeometry simplified shape geometry atlasTexture W
    = Val (Some (target W geometry), W')
    /\ QCache.find (paths W') (shape_key shape) = Some path
    /\ nth_error (heap W') (target W geometry) = Some g
    /\ QSGGeometry.vertexCount g = length path
    /\ forall i p, nth_error path i = Some p ->
         let w := QRectF.width (rect shape) in
         let h := QRectF.height (rect shape) in
         exists v,
           nth_error (QSGGeometry.vertexData g) i = Some v
           /\ QSGGeometry.x v
              = to_float (qreal_add (QPointF.x p) (QRectF.x (rect shape)))
           /\ QSGGeometry.y v
              = to_float (qreal_add (QPointF.y p) (QRectF.y (rect shape)))
           /\ match atlasTexture with
              | Some t =>
                  let S := normalizedTextureSubRect t in
                  QSGGeometry.tx v
                  = to_float (qreal_add (QRectF.x S)
                                (qreal_mul (QRectF.width S) (qreal_div (QPointF.x p) w)))
                  /\ QSGGeometry.ty v
                     = to_float (qreal_add (QRectF.y S)
                                   (qreal_mul (QRectF.height S) (qreal_div (QPointF.y p) h)))
              | None =>
                  QSGGeometry.tx v = to_float (qreal_div (QPointF.x p) w)
                  /\ QSGGeometry.ty v = to_float (qreal_div (QPointF.y p) h)
              end.
Proof.
  intros Hv Hr Hav Hok.
  destruct (select_path_total simplified shape W Hv Hav) as (n & path & W1 & Hsel).
  destruct (select_path_result simplified _ _ _ _ _ Hsel) as (_ & Hshape).
  rewrite Hr in Hshape. destruct Hshape as (v & -> & -> & Hfind).
  destruct (rebuildGeometry_run simplified _ _ atlasTexture _ _ _ _ Hv Hsel Hok)
    as (h & g & Hrun & (Hcell & _) & Hvd & _).
  unfold built_vertices in Hvd. rewrite Hr in Hvd.
  exists v, (mkWorld (paths W1) h), g.
  split; [exact Hrun |].
  split; [exact Hfind |].
  split; [exact Hcell |].
  split; [unfold QSGGeometry.vertexCount; now rewrite Hvd, length_map |].
  intros i p Hp.
  exists (textured_point shape atlasTexture (texNormalSubRect_of atlasTexture) p).
  split; [rewrite Hvd, nth_error_map, Hp; reflexivity |].
  destruct atlasTexture; simpl; auto.
Qed.

Lemma rounded_vertices_follow_outline_witness :
  let shape := mkShape Samples.rect_at_10_20 10 in
  let atlas := Some Samples.atlas_texture in
  let S := normalizedTextureSubRect Samples.atlas_texture in
  isValid shape = true
  /\ qFuzzyIsNull (radius shape) = false
  /\ exists path W' g,
       rebuildGeometry Samples.chamfered shape None atlas Samples.empty_World
       = Val (Some (target Samples.empty_World None), W')
       /\ QCache.find (paths W') (shape_key shape) = Some path
       /\ nth_error (heap W') (target Samples.empty_World None) = Some g
       /\ QSGGeometry.vertexCount g = length path
       /\ forall i p, nth_error path i = Some p ->
            exists v,
              nth_error (QSGGeometry.vertexData g) i = Some v
              /\ QSGGeometry.x v
                 = to_float (qreal_add (QPointF.x p) (QRectF.x (rect shape)))
              /\ QSGGeometry.y v
                 = to_float (qreal_add (QPointF.y p) (QRectF.y (rect shape)))
              /\ QSGGeometry.tx v
                 = to_float (qreal_add (QRectF.x S)
                               (qreal_mul (QRectF.width S)
                                  (qreal_div (QPointF.x p) (QRectF.width (rect shape)))))
              /\ QSGGeometry.ty v
                 = to_float (qreal_add (QRectF.y S)
                               (qreal_mul (QRectF.height S)
                                  (qreal_div (QPointF.y p) (QRectF.height (rect shape))))).
Proof.
  intros shape atlas S.
  split; [reflexivity |].
  split; [reflexivity |].
  apply (rounded_vertices_follow_outline Samples.chamfered shape None atlas
                                         Samples.empty_World).
  - reflexivity.
  - reflexivity.
  - intros _ _. right. repeat constructor.
  - exact I.
Defined.

(** C3, as stated, fails in three ways that the code has by design, shown
    on a node with a non-atlas texture.
    - A fuzzily zero radius can be negative: with radius -2^-44 the shape
      is invalid and [setShape] returns false.
    - The shape can be the current one: of two identical calls the second
      returns false and builds nothing.
    - The vertex holds [float]s: the rect (16777217, 0, 2, 2) is built with
      positions at x = 16777216 and x = 16777220, while its corners are at
      16777217 and 16777219.
    On the node the constructor leaves, which has no texture, the call
    ends in the null dereference of line 133. *)
Lemma plain_rect_counterexample :
  let n := Samples.textured_Node in
  let W := Samples.empty_World in
  (let s := mkShape Samples.rect_100x50 (- (1 # 17592186044416)) in
   QRectF.isEmpty (rect s) = false
   /\ qFuzzyIsNull (radius s) = true
   /\ Shape_eq QRectF.exact_eq (m_shape n) s = false
   /\ setShape Samples.chamfered QRectF.exact_eq s n W
      = Val ((false, count_rebuild n), W))
  /\ (let s := mkShape Samples.rect_100x50 0 in
      exists n1 W1,
        setShape Samples.chamfered QRectF.exact_eq s n W = Val ((true, n1), W1)
        /\ setShape Samples.chamfered QRectF.exact_eq s n1 W1 = Val ((false, n1), W1))
  /\ (let s := mkShape (QRectF.mk 16777217 0 2 2) 0 in
      exists n1 W1 g v0 v2,
        setShape Samples.chamfered QRectF.exact_eq s n W = Val ((true, n1), W1)
        /\ geometry n1 = Some 0%nat
        /\ nth_error (heap W1) 0 = Some g
        /\ nth_error (QSGGeometry.vertexData g) 0 = Some v0
        /\ nth_error (QSGGeometry.vertexData g) 2 = Some v2
        /\ QRectF.left (rect s) = 16777217 /\ QSGGeometry.x v0 = 16777216
        /\ QRectF.right (rect s) = 16777219 /\ QSGGeometry.x v2 = 16777220)
  /\ setShape Samples.chamfered QRectF.exact_eq (mkShape Samples.rect_100x50 0)
              new_Node W = Err NullPointer.
Proof.
  intros n W.
  split; [| split; [| split]].
  - split; [reflexivity |].
    split; [reflexivity |].
    split; [reflexivity |].
    vm_compute. reflexivity.
  - do 2 eexists. split; [vm_compute; reflexivity | vm_compute; reflexivity].
  - do 5 eexists.
    split; [vm_compute; reflexivity |].
    split; [reflexivity |].
    split; [reflexivity |].
    split; [reflexivity |].
    split; [reflexivity |].
    split; [reflexivity |].
    split; [reflexivity |].
    split; [vm_compute; reflexivity | reflexivity].
  - reflexivity.
Qed.

(** C3, amended.  For every non-empty rect and every radius that is
    fuzzily zero and not negative, [setShape] on a node that has a texture,
    a usable geometry pointer and a different current shape returns true,
    commits the shape, and leaves the node with a geometry of exactly four
    vertices, in strip order: each is a corner of the rect with the
    matching corner of the texture sub-rect (the unit square for a
    non-atlas texture) as texture coordinate, every coordinate converted
    to [float]; [right] and [bottom] are the binary64 sums [x + w] and
    [y + h]. *)
Theorem plain_rect_has_four_corner_vertices
        (simplified : qreal -> qreal -> qreal -> list Element)
        (QRectF_eq : QRectF.t -> QRectF.t -> bool)
        (r : QRectF.t) (rad : qreal) (n : Node) (W : World) (t : QSGTexture) :
  QRectF.isEmpty r = false ->
  0 <= rad ->
  qFuzzyIsNull rad = true ->
  m_texture n = Some t ->
  geometry_ok W (geometry n) ->
  Shape_eq QRectF_eq (m_shape n) (mkShape r rad) = false ->
  let S := if isAtlasTexture t then normalizedTextureSubRect t
           else QRectF.mk 0 0 1 1 in
  exists n' W' p g,
    setShape simplified QRectF_eq (mkShape r rad) n W = Val ((true, n'), W')
    /\ m_shape n' = mkShape r rad
    /\ geometry n' = Some p
    /\ nth_error (heap W') p = Some g
    /\ QSGGeometry.vertexCount g = 4%nat
    /\ QSGGeometry.vertexData g
       = [ QSGGeometry.mkTP (to_float (QRectF.left r)) (to_float (QRectF.top r))
                            (to_float (QRectF.left S)) (to_float (QRectF.top S));
           QSGGeometry.mkTP (to_float (QRectF.left r)) (to_float (QRectF.bottom r))
                            (to_float (QRectF.left S)) (to_float (QRectF.bottom S));
           QSGGeometry.mkTP (to_float (QRectF.right r)) (to_float (QRectF.top r))
                            (to_float (QRectF.right S)) (to_float (QRectF.top S));
           QSGGeometry.mkTP (to_float (QRectF.right r)) (to_float (QRectF.bottom r))
                            (to_float (QRectF.right S)) (to_float (QRectF.bottom S)) ].
Proof.
  intros He Hrad Hnull Ht Hok Hne S.
  set (s := mkShape r rad).
  assert (Hv : isValid s = true).
  { unfold isValid; simpl. rewrite He; simpl. now apply Qle_bool_iff. }
  pose proof (select_path_plain simplified s W Hnull) as Hsel.
  destruct (rebuildGeometry_shape_run simplified s n W W t _ _ Ht Hv Hok Hsel)
    as (h & g & n' & Hrun & Hg & (Hcell & _) & Hvd & _ & _ & _).
  unfold built_vertices in Hvd. simpl in Hvd. rewrite Hnull in Hvd.
  exists (set_m_shape s n'), (mkWorld (paths W) h), (target W (geometry n)), g.
  change (mkShape r rad) with s in Hne.
  split; [unfold setShape; now rewrite Hne, Hrun |].
  split; [reflexivity |].
  split; [exact Hg |].
  split; [exact Hcell |].
  assert (HS : texNormalSubRect_of (atlas_argument t) = S).
  { unfold atlas_argument, S. now destruct (isAtlasTexture t). }
  rewrite HS in Hvd. unfold QSGGeometry.vertexCount.
  rewrite Hvd. split; reflexivity.
Qed.

Lemma plain_rect_has_four_corner_vertices_witness :
  let r := Samples.rect_at_10_20 in
  let n := Samples.textured_Node in
  QRectF.isEmpty r = false
  /\ 0 <= 0
  /\ qFuzzyIsNull 0 = true
  /\ Shape_eq QRectF.exact_eq (m_shape n) (mkShape r 0) = false
  /\ exists n' W' p g,
       setShape Samples.chamfered QRectF.exact_eq (mkShape r 0) n Samples.empty_World
       = Val ((true, n'), W')
       /\ m_shape n' = mkShape r 0
       /\ geometry n' = Some p
       /\ nth_error (heap W') p = Some g
       /\ QSGGeometry.vertexCount g = 4%nat
       /\ QSGGeometry.vertexData g
          = [ QSGGeometry.mkTP (to_float 10) (to_float 20) (to_float 0) (to_float 0);
              QSGGeometry.mkTP (to_float 10) (to_float (qreal_add 20 50))
                               (to_float 0) (to_float (qreal_add 0 1));
              QSGGeometry.mkTP (to_float (qreal_add 10 100)) (to_float 20)
                               (to_float (qreal_add 0 1)) (to_float 0);
              QSGGeometry.mkTP (to_float (qreal_add 10 100)) (to_float (qreal_add 20 50))
                               (to_float (qreal_add 0 1)) (to_float (qreal_add 0 1)) ].
Proof.
  intros r n.
  split; [reflexivity |].
  split; [apply Qle_refl |].
  split; [reflexivity |].
  split; [reflexivity |].
  apply (plain_rect_has_four_corner_vertices Samples.chamfered QRectF.exact_eq
           r 0 n Samples.empty_World Samples.plain_texture).
  - reflexivity.
  - apply Qle_refl.
  - reflexivity.
  - reflexivity.
  - exact I.
  - reflexivity.
Defined.

(** An invalid shape (empty rect or negative radius) is turned down where
    the validity test is reached: the static build returns the null pointer
    and leaves the process state (cache and every geometry object) as it
    was; [setShape] on a node that has a texture returns false, and neither
    a member of the node nor the process state changes.  A node that has a
    geometry has a texture. *)
Lemma invalid_shape_is_rejected
        (simplified : qreal -> qreal -> qreal -> list Element)
        (QRectF_eq : QRectF.t -> QRectF.t -> bool) (shape : Shape) :
  QRectF.isEmpty (rect shape) = true \/ radius shape < 0 ->
  (forall geometry atlasTexture W,
      rebuildGeometry simplified shape geometry atlasTexture W = Val (None, W))
  /\ (forall n W t,
         m_texture n = Some t ->
         exists n',
           setShape simplified QRectF_eq shape n W = Val ((false, n'), W)
           /\ same_members n n')
  /\ (forall n W p,
         reachable simplified QRectF_eq n W ->
         geometry n = Some p ->
         exists n',
           setShape simplified QRectF_eq shape n W = Val ((false, n'), W)
           /\ same_members n n').
Proof.
  intros Hinv. apply isValid_false in Hinv.
  assert (Hfacade : forall n W t,
             m_texture n = Some t ->
             exists n',
               setShape simplified QRectF_eq shape n W = Val ((false, n'), W)
               /\ same_members n n').
  { intros n W t Ht. unfold setShape.
    destruct (Shape_eq QRectF_eq (m_shape n) shape).
    - exists n. split; [reflexivity | repeat split].
    - rewrite (rebuildGeometry_shape_invalid simplified _ _ _ _ Ht Hinv).
      exists (count_rebuild n). split; [reflexivity | repeat split]. }
  split; [| split].
  - intros geometry atlasTexture W. now apply rebuildGeometry_invalid.
  - exact Hfacade.
  - intros n W p Hreach Hg.
    destruct (reachable_invariant simplified QRectF_eq n W Hreach) as (_ & _ & Hnull).
    destruct (m_texture n) as [t|] eqn:Ht.
    + now apply (Hfacade n W t).
    + destruct (Hnull eq_refl) as (Hnone & _). congruence.
Qed.

Lemma invalid_shape_is_rejected_witness :
  let shape := mkShape QRectF.null 10 in
  (QRectF.isEmpty (rect shape) = true \/ radius shape < 0)
  /\ (forall geometry atlasTexture W,
         rebuildGeometry Samples.chamfered shape geometry atlasTexture W = Val (None, W))
  /\ (forall n W t,
         m_texture n = Some t ->
         exists n',
           setShape Samples.chamfered QRectF.exact_eq shape n W = Val ((false, n'), W)
           /\ same_members n n')
  /\ (forall n W p,
         reachable Samples.chamfered QRectF.exact_eq n W ->
         geometry n = Some p ->
         exists n',
           setShape Samples.chamfered QRectF.exact_eq shape n W = Val ((false, n'), W)
           /\ same_members n n').
Proof.
  intros shape.
  split; [left; reflexivity |].
  apply (invalid_shape_is_rejected Samples.chamfered QRectF.exact_eq shape).
  left; reflexivity.
Defined.

(** C4: the code fails the claim on a node without a texture.  The shape
    with the empty default rect and radius 10 is invalid, and the static
    build turns it down with the null pointer and an unchanged process
    state.  [setShape] of that shape on the node the constructor leaves
    does not return false: [rebuildGeometry(const Shape&)] reads
    [m_texture->isAtlasTexture()] at line 133, before the static build
    tests the shape at line 158, and dereferences the null texture.
    [setTexture] tests [!m_texture] at line 99 and the static build has a
    branch for the absent texture at line 257; this path has no such
    test. *)
Theorem invalid_shape_on_new_node_dereferences_null :
  let shape := mkShape QRectF.null 10 in
  isValid shape = false
  /\ m_texture new_Node = None
  /\ (forall simplified geometry atlasTexture W,
         rebuildGeometry simplified shape geometry atlasTexture W = Val (None, W))
  /\ (forall simplified QRectF_eq W,
         setShape simplified QRectF_eq shape new_Node W = Err NullPointer)
  /\ (forall simplified QRectF_eq W,
         exists n',
           setShape simplified QRectF_eq shape Samples.textured_Node W
           = Val ((false, n'), W)
           /\ same_members Samples.textured_Node n').
Proof.
  intros shape.
  assert (Hne : forall QRectF_eq n,
             m_shape n = default_Shape -> Shape_eq QRectF_eq (m_shape n) shape = false).
  { intros QRectF_eq n ->. unfold Shape_eq. apply andb_false_iff. right. reflexivity. }
  split; [reflexivity |].
  split; [reflexivity |].
  split; [| split].
  - intros simplified geometry atlasTexture W.
    now apply rebuildGeometry_invalid.
  - intros simplified QRectF_eq W. unfold setShape.
    rewrite (Hne QRectF_eq new_Node eq_refl).
    now rewrite rebuildGeometry_shape_null.
  - intros simplified QRectF_eq W. unfold setShape.
    rewrite (Hne QRectF_eq Samples.textured_Node eq_refl).
    rewrite (rebuildGeometry_shape_invalid simplified shape Samples.textured_Node W
               Samples.plain_texture eq_refl eq_refl).
    exists (count_rebuild Samples.textured_Node).
    split; [reflexivity | repeat split].
Qed.

(** C7.  [setShape] with a shape equal (by [Shape::operator==]) to the
    current one returns false and changes nothing: no rebuild is entered,
    the geometry pointer and every geometry object stay as they are.  In
    particular, after a call that returned true, the same call again returns
    false and leaves node and process state untouched. *)
Theorem setShape_equal_shape_is_noop
        (simplified : qreal -> qreal -> qreal -> list Element)
        (QRectF_eq : QRectF.t -> QRectF.t -> bool) :
  (forall n s W,
      Shape_eq QRectF_eq (m_shape n) s = true ->
      setShape simplified QRectF_eq s n W = Val ((false, n), W))
  /\ (forall n s W n' W',
         setShape simplified QRectF_eq s n W = Val ((true, n'), W') ->
         QRectF_eq (rect s) (rect s) = true ->
         setShape simplified QRectF_eq s n' W' = Val ((false, n'), W')).
Proof.
  assert (Hsame : forall n s W,
             Shape_eq QRectF_eq (m_shape n) s = true ->
             setShape simplified QRectF_eq s n W = Val ((false, n), W)).
  { intros n s W H. unfold setShape. now rewrite H. }
  split; [exact Hsame |].
  intros n s W n' W' Hrun Hrefl. apply Hsame.
  unfold setShape in Hrun.
  destruct (Shape_eq QRectF_eq (m_shape n) s); [discriminate |].
  destruct (rebuildGeometry_shape simplified s n W) as [[[b n1] W1]|f]; [| discriminate].
  destruct b; [| discriminate].
  injection Hrun as <- _. simpl.
  unfold Shape_eq. now rewrite Hrefl, qFuzzyCompare_refl.
Qed.

Lemma setShape_equal_shape_is_noop_witness :
  let s := mkShape Samples.rect_100x50 10 in
  exists n' W',
    setShape Samples.chamfered QRectF.exact_eq s Samples.textured_Node Samples.empty_World
    = Val ((true, n'), W')
    /\ QRectF.exact_eq (rect s) (rect s) = true
    /\ Shape_eq QRectF.exact_eq (m_shape n') s = true
    /\ setShape Samples.chamfered QRectF.exact_eq s n' W' = Val ((false, n'), W').
Proof.
  intros s. eexists. eexists.
  split; [vm_compute; reflexivity |].
  split; [reflexivity |].
  split; [reflexivity |].
  apply (proj1 (setShape_equal_shape_is_noop Samples.chamfered QRectF.exact_eq)).
  reflexivity.
Defined.

(** C10.  On a node whose texture reference is null, [setShape] with a
    valid shape that differs from the current one, and [rebuildGeometry]
    with or without a shape argument, dereference the null texture pointer:
    the member function reads [m_texture->isAtlasTexture()] without a
    guard. *)
Theorem rebuild_without_texture_dereferences_null
        (simplified : qreal -> qreal -> qreal -> list Element)
        (QRectF_eq : QRectF.t -> QRectF.t -> bool) (n : Node) (W : World) :
  m_texture n = None ->
  (forall s, isValid s = true -> Shape_eq QRectF_eq (m_shape n) s = false ->
             setShape simplified QRectF_eq s n W = Err NullPointer)
  /\ rebuildGeometry_current simplified n W = Err NullPointer
  /\ (forall s, rebuildGeometry_shape simplified s n W = Err NullPointer).
Proof.
  intros Hnull.
  split; [| split].
  - intros s _ Hne. unfold setShape. rewrite Hne.
    now rewrite rebuildGeometry_shape_null.
  - now apply rebuildGeometry_shape_null.
  - intros s. now apply rebuildGeometry_shape_null.
Qed.

Lemma rebuild_without_texture_dereferences_null_witness :
  m_texture new_Node = None
  /\ isValid (mkShape Samples.rect_100x50 10) = true
  /\ setShape Samples.chamfered QRectF.exact_eq (mkShape Samples.rect_100x50 10)
              new_Node Samples.empty_World = Err NullPointer
  /\ rebuildGeometry_current Samples.chamfered new_Node Samples.empty_World
     = Err NullPointer.
Proof.
  pose proof (rebuild_without_texture_dereferences_null
                Samples.chamfered QRectF.exact_eq new_Node Samples.empty_World
                eq_refl) as (Hset & Hcur & _).
  split; [reflexivity |].
  split; [reflexivity |].
  split; [apply Hset; reflexivity | exact Hcur].
Defined.











(** A rebuild through the facade returns whenever the node has a texture
    and a usable geometry pointer and the outline can be had. *)
Lemma rebuildGeometry_current_total
      (simplified : qreal -> qreal -> qreal -> list Element)
      (n : Node) (W : World) (t : QSGTexture) :
  m_texture n = Some t ->
  geometry_ok W (geometry n) ->
  outline_available simplified W (m_shape n) ->
  exists b n' W',
    rebuildGeometry_current simplified n W = Val ((b, n'), W')
    /\ rebuildCalls n' = S (rebuildCalls n)
    /\ m_texture n' = m_texture n /\ m_shape n' = m_shape n.
Proof.
  intros Ht Hok Hav. unfold rebuildGeometry_current.
  destruct (isValid (m_shape n)) eqn:Hv.
  - destruct (select_path_total simplified _ W Hv Hav) as (k & path & W1 & Hsel).
    destruct (rebuildGeometry_shape_run simplified _ n W W1 t _ _ Ht Hv Hok Hsel)
      as (h & g & n' & Hrun & _ & _ & _ & _ & Htex & Hsh & _ & _ & _ & Hcalls).
    exists true, n', (mkWorld (paths W1) h). auto.
  - rewrite (rebuildGeometry_shape_invalid simplified _ _ _ _ Ht Hv).
    exists false, (count_rebuild n), W. auto.
Qed.

(** C6, as stated, fails on the first texture of a node: the rebuild is
    entered although neither a previous atlas texture exists nor the new
    texture is an atlas. *)
Lemma first_texture_rebuild_counterexample :
  let n := new_Node in
  let t := Samples.plain_texture in
  exists n',
    setTexture Samples.chamfered (Some t) n Samples.empty_World
    = Val ((tt, n'), Samples.empty_World)
    /\ rebuildCalls n' = S (rebuildCalls n)
    /\ ~ (rebuildCalls n' = S (rebuildCalls n)
          <-> (previous_is_atlas n = true \/ isAtlasTexture t = true)).
Proof.
  eexists. split; [reflexivity |].
  split; [reflexivity |].
  intros (H & _). destruct (H eq_refl); discriminate.
Qed.

(** C6, amended.  [setTexture] with a non-null texture enters the geometry
    rebuild exactly when the node had no texture, or its texture was an
    atlas, or the new one is; when the node had a non-atlas texture and the
    new one is non-atlas too, no rebuild is entered and geometry pointer
    and process state stay as they are.  In every case the texture is
    stored, bound to both materials, and the material marked dirty. *)
Theorem setTexture_rebuild_condition
        (simplified : qreal -> qreal -> qreal -> list Element)
        (n : Node) (t : QSGTexture) (W : World) :
  geometry_ok W (geometry n) ->
  outline_available simplified W (m_shape n) ->
  exists n' W',
    setTexture simplified (Some t) n W = Val ((tt, n'), W')
    /\ (rebuildCalls n' = S (rebuildCalls n)
        <-> (m_texture n = None \/ previous_is_atlas n = true
             \/ isAtlasTexture t = true))
    /\ ((exists old, m_texture n = Some old /\ isAtlasTexture old = false)
        /\ isAtlasTexture t = false ->
        rebuildCalls n' = rebuildCalls n /\ geometry n' = geometry n /\ W' = W)
    /\ m_texture n' = Some t
    /\ materialTexture n' = Some t /\ opaqueMaterialTexture n' = Some t
    /\ hd_error (dirtyLog n') = Some DirtyMaterial.
Proof.
  intros Hok Hav. unfold setTexture, previous_is_atlas.
  set (n1 := set_m_texture (Some t) n).
  assert (Hrebuild :
    exists b n2 W2,
      rebuildGeometry_current simplified n1 W = Val ((b, n2), W2)
      /\ rebuildCalls n2 = S (rebuildCalls n)
      /\ m_texture n2 = Some t).
  { destruct (rebuildGeometry_current_total simplified n1 W t eq_refl Hok Hav)
      as (b & n2 & W2 & Hrun & Hc & Ht & _).
    exists b, n2, W2. auto. }
  destruct Hrebuild as (b & n2 & W2 & Hrun & Hc & Ht).
  destruct (m_texture n) as [old|] eqn:Hold.
  - destruct (isAtlasTexture old) eqn:Ho; simpl.
    + rewrite Hrun. eexists; eexists; split; [reflexivity |]; simpl.
      split; [split; auto |].
      split; [intros ((o & Heq & Hf) & _); congruence |]. auto.
    + destruct (isAtlasTexture t) eqn:Hnew.
      * rewrite Hrun. eexists; eexists; split; [reflexivity |]; simpl.
        split; [split; auto |].
        split; [intros (_ & Hf); discriminate |]. auto.
      * eexists; eexists; split; [reflexivity |]; simpl.
        split.
        { split; [intros H; exfalso; now apply (n_Sn (rebuildCalls n)) |].
          intros [H | [H | H]]; discriminate. }
        auto.
  - simpl. rewrite Hrun. eexists; eexists; split; [reflexivity |]; simpl.
    split; [split; auto |].
    split; [intros ((o & Heq & _) & _); discriminate |]. auto.
Qed.

Lemma setTexture_rebuild_condition_witness :
  let n := Samples.textured_Node in
  let t := Samples.atlas_texture in
  geometry_ok Samples.empty_World (geometry n)
  /\ outline_available Samples.chamfered Samples.empty_World (m_shape n)
  /\ exists n' W',
       setTexture Samples.chamfered (Some t) n Samples.empty_World
       = Val ((tt, n'), W')
       /\ (rebuildCalls n' = S (rebuildCalls n)
           <-> (m_texture n = None \/ previous_is_atlas n = true
                \/ isAtlasTexture t = true))
       /\ ((exists old, m_texture n = Some old /\ isAtlasTexture old = false)
           /\ isAtlasTexture t = false ->
           rebuildCalls n' = rebuildCalls n /\ geometry n' = geometry n
           /\ W' = Samples.empty_World)
       /\ m_texture n' = Some t
       /\ materialTexture n' = Some t /\ opaqueMaterialTexture n' = Some t
       /\ hd_error (dirtyLog n') = Some DirtyMaterial.
Proof.
  intros n t.
  assert (Hav : outline_available Samples.chamfered Samples.empty_World (m_shape n))
    by (intros Hv; discriminate Hv).
  split; [exact I |].
  split; [exact Hav |].
  apply (setTexture_rebuild_condition Samples.chamfered n t Samples.empty_World I Hav).
Defined.

(** C8: the code fails the claim at radius zero.  Take one rect and the
    radii 0 and 5e-13 (the binary64 value of that literal).  The radii are
    within 1e-12 times max(1, |a|, |b|) of each other, the rects are the
    same, and [Shape::operator==] answers false in both orders, whatever
    [QRectF::operator==] answers: [qFuzzyCompare] scales its tolerance by
    the smaller magnitude, which is zero.  The build tests the radius with
    [qFuzzyIsNull] (line 166), takes both radii for zero and builds the
    same geometry for both shapes. *)
Theorem zero_and_tiny_radius_compare_unequal :
  let r := IEEE.binary64 0.0000000000005 in
  let a := mkShape Samples.rect_100x50 0 in
  let b := mkShape Samples.rect_100x50 r in
  IEEE.is_binary64 r
  /\ 0 < r
  /\ Qabs (radius a - radius b)
     <= 0.000000000001 * Qmax 1 (Qmax (Qabs (radius a)) (Qabs (radius b)))
  /\ rect a = rect b
  /\ (forall QRectF_eq,
         Shape_eq QRectF_eq a b = false /\ Shape_eq QRectF_eq b a = false)
  /\ qFuzzyIsNull (radius a) = true
  /\ qFuzzyIsNull (radius b) = true
  /\ (forall simplified geometry atlasTexture W,
         rebuildGeometry simplified a geometry atlasTexture W
         = rebuildGeometry simplified b geometry atlasTexture W).
Proof.
  intros r a b.
  split; [vm_compute; reflexivity |].
  split; [vm_compute; reflexivity |].
  split; [vm_compute; discriminate |].
  split; [reflexivity |].
  split.
  { intros QRectF_eq. unfold Shape_eq.
    split; apply andb_false_iff; right; vm_compute; reflexivity. }
  split; [vm_compute; reflexivity |].
  split; [vm_compute; reflexivity |].
  intros simplified geometry atlasTexture W.
  assert (Hb : qFuzzyIsNull (radius b) = true) by (vm_compute; reflexivity).
  assert (Hvb : isValid b = true) by (vm_compute; reflexivity).
  unfold rebuildGeometry, select_path.
  rewrite Hvb, Hb.
  change (isValid a) with true. change (qFuzzyIsNull (radius a)) with true.
  reflexivity.
Qed.

(** C9.  When the simplified outline of a valid rounded shape holds an
    element that is neither move-to nor line-to and the cache has no entry
    for the key, the outline builder stops at the assertion of line 206:
    the run ends in an assertion failure before any geometry is allocated
    or written and before the cache is updated, for the static build and
    for [setShape] alike. *)
Theorem curve_element_is_refused
        (simplified : qreal -> qreal -> qreal -> list Element)
        (shape : Shape) (W : World) :
  isValid shape = true ->
  qFuzzyIsNull (radius shape) = false ->
  QCache.contains (paths W) (shape_key shape) = false ->
  (exists e, In e (elements_of simplified shape)
             /\ type e <> MoveToElement /\ type e <> LineToElement) ->
  build_outline (elements_of simplified shape) = Err AssertionFailed
  /\ (forall geometry atlasTexture,
         rebuildGeometry simplified shape geometry atlasTexture W
         = Err AssertionFailed)
  /\ (forall QRectF_eq n t,
         m_texture n = Some t ->
         Shape_eq QRectF_eq (m_shape n) shape = false ->
         setShape simplified QRectF_eq shape n W = Err AssertionFailed).
Proof.
  intros Hv Hr Hmiss (e & Hin & Hm & Hl).
  assert (Hb : build_outline (elements_of simplified shape) = Err AssertionFailed).
  { apply build_outline_curve. exists e; split; [assumption |].
    destruct (type e); simpl; congruence. }
  assert (Hsel : select_path simplified shape W = Err AssertionFailed).
  { rewrite (select_path_miss simplified _ _ Hr Hmiss). now rewrite Hb. }
  split; [exact Hb |].
  split.
  - intros geometry atlasTexture.
    now apply rebuildGeometry_select_fault.
  - intros QRectF_eq n t Ht Hne. unfold setShape. rewrite Hne.
    now rewrite (rebuildGeometry_shape_fault simplified _ _ _ _ _ Ht Hv Hsel).
Qed.

Lemma curve_element_is_refused_witness :
  let shape := mkShape Samples.rect_100x50 10 in
  isValid shape = true
  /\ qFuzzyIsNull (radius shape) = false
  /\ QCache.contains (paths Samples.empty_World) (shape_key shape) = false
  /\ In (mkElement 100 0 CurveToElement) (elements_of Samples.with_curve shape)
  /\ build_outline (elements_of Samples.with_curve shape) = Err AssertionFailed
  /\ (forall geometry atlasTexture,
         rebuildGeometry Samples.with_curve shape geometry atlasTexture
                         Samples.empty_World
         = Err AssertionFailed)
  /\ (forall QRectF_eq n t,
         m_texture n = Some t ->
         Shape_eq QRectF_eq (m_shape n) shape = false ->
         setShape Samples.with_curve QRectF_eq shape n Samples.empty_World
         = Err AssertionFailed).
Proof.
  intros shape.
  assert (Hin : In (mkElement 100 0 CurveToElement)
                   (elements_of Samples.with_curve shape))
    by (right; right; left; reflexivity).
  split; [reflexivity |].
  split; [reflexivity |].
  split; [reflexivity |].
  split; [exact Hin |].
  apply (curve_element_is_refused Samples.with_curve shape Samples.empty_World).
  - reflexivity.
  - reflexivity.
  - reflexivity.
  - exists (mkElement 100 0 CurveToElement).
    split; [exact Hin | split; discriminate].
Defined.

(** * Further properties of the code *)

(** ** The static build and the heap *)

Lemma cell_set_length (h h' : list QSGGeometry.t) (p : ptr) (g : QSGGeometry.t) :
  cell_set h h' p g ->
  length h' = if (p <? length h)%nat then length h else S p.
Proof.
  intros (Hp & Hothers).
  assert (Hlt : (p < length h')%nat) by (apply nth_error_Some; congruence).
  destruct (Nat.ltb_spec p (length h)) as [Hin | Hout].
  - apply Nat.le_antisymm.
    + apply nth_error_None. rewrite Hothers by lia. apply nth_error_None. lia.
    + destruct (length h) as [|m] eqn:Hm; [lia |].
      destruct (Nat.eq_dec p m) as [-> | Hne]; [lia |].
      assert (Hs : nth_error h' m <> None).
      { rewrite Hothers by congruence. apply nth_error_Some. lia. }
      apply nth_error_Some in Hs. lia.
  - apply Nat.le_antisymm; [| lia].
    apply nth_error_None. rewrite Hothers by lia. apply nth_error_None. lia.
Qed.

(** X1.  A build of a valid shape that returns hands back the geometry it
    was given, or, given none, the one object it allocated; it allocates
    nothing in the first case and exactly one object in the second, and in
    both every other geometry object is left as it was. *)
Theorem build_reuses_or_allocates_once
        (simplified : qreal -> qreal -> qreal -> list Element)
        (shape : Shape) (geometry : option ptr)
        (atlasTexture : option QSGTexture) (W W' : World) (r : option ptr) :
  isValid shape = true ->
  rebuildGeometry simplified shape geometry atlasTexture W = Val (r, W') ->
  match geometry with
  | Some p => r = Some p /\ length (heap W') = length (heap W)
  | None => r = Some (length (heap W)) /\ length (heap W') = S (length (heap W))
  end
  /\ forall q, r <> Some q -> nth_error (heap W') q = nth_error (heap W) q.
Proof.
  intros Hv Hrun.
  destruct (rebuildGeometry_Val_inv simplified _ _ _ _ _ _ Hv Hrun)
    as (n & path & W1 & Hsel & Hok).
  destruct (rebuildGeometry_run simplified _ _ atlasTexture _ _ _ _ Hv Hsel Hok)
    as (h & g & Hrun' & Hcell & _).
  rewrite Hrun' in Hrun. injection Hrun as <- <-. simpl.
  pose proof (cell_set_length _ _ _ _ Hcell) as Hlen.
  split.
  - destruct geometry as [p|]; simpl in *.
    + destruct Hok as (g0 & Hp & _).
      assert (Hlt : (p < length (heap W))%nat) by (apply nth_error_Some; congruence).
      destruct (Nat.ltb_spec p (length (heap W))); [auto | lia].
    + rewrite Nat.ltb_irrefl in Hlen. auto.
  - intros q Hq. apply (proj2 Hcell). congruence.
Qed.

Lemma build_reuses_or_allocates_once_witness :
  let shape := mkShape Samples.rect_at_10_20 10 in
  isValid shape = true
  /\ exists W',
       rebuildGeometry Samples.chamfered shape (Some 0%nat) None Samples.warm_World
       = Val (Some 0%nat, W')
       /\ length (heap W') = length (heap Samples.warm_World)
       /\ forall q, Some 0%nat <> Some q ->
                    nth_error (heap W') q = nth_error (heap Samples.warm_World) q.
Proof.
  intros shape. split; [reflexivity |].
  eexists. split; [vm_compute; reflexivity |].
  pose proof (build_reuses_or_allocates_once Samples.chamfered shape (Some 0%nat) None
                Samples.warm_World _ (Some 0%nat) eq_refl
                ltac:(vm_compute; reflexivity)) as ((_ & Hlen) & Hframe).
  split; [exact Hlen | exact Hframe].
Defined.

(** X2.  What a build returns can be given to the next build: the object has
    the static patterns, the triangle strip and the textured-point layout
    that lines 241-246 assert, and both dirty marks; a further build of any
    valid shape whose outline can be had, on that pointer, returns the same
    pointer again. *)
Theorem built_geometry_feeds_next_build
        (simplified : qreal -> qreal -> qreal -> list Element)
        (shape shape2 : Shape) (geometry : option ptr)
        (atlasTexture atlasTexture2 : option QSGTexture)
        (W W' : World) (p : ptr) :
  isValid shape = true ->
  rebuildGeometry simplified shape geometry atlasTexture W = Val (Some p, W') ->
  isValid shape2 = true ->
  outline_available simplified W' shape2 ->
  (exists g, nth_error (heap W') p = Some g
             /\ compatible g = true
             /\ QSGGeometry.indexDataDirty g = true
             /\ QSGGeometry.vertexDataDirty g = true)
  /\ exists W'',
       rebuildGeometry simplified shape2 (Some p) atlasTexture2 W' = Val (Some p, W'').
Proof.
  intros Hv Hrun Hv2 Hav.
  destruct (rebuildGeometry_Val_inv simplified _ _ _ _ _ _ Hv Hrun)
    as (n & path & W1 & Hsel & Hok).
  destruct (rebuildGeometry_run simplified _ _ atlasTexture _ _ _ _ Hv Hsel Hok)
    as (h & g & Hrun' & (Hcell & _) & _ & Hc & Hi & Hvd).
  rewrite Hrun' in Hrun. injection Hrun as <- <-. simpl.
  split; [exists g; auto |].
  assert (Hok' : geometry_ok (mkWorld (paths W1) h) (Some (target W geometry)))
    by (exists g; auto).
  destruct (select_path_total simplified shape2 _ Hv2 Hav) as (n2 & path2 & W2 & Hsel2).
  destruct (rebuildGeometry_run simplified _ _ atlasTexture2 _ _ _ _ Hv2 Hsel2 Hok')
    as (h2 & g2 & Hrun2 & _).
  eexists. exact Hrun2.
Qed.

Lemma built_geometry_feeds_next_build_witness :
  let shape := mkShape Samples.rect_100x50 10 in
  let shape2 := mkShape Samples.rect_at_10_20 0 in
  isValid shape = true
  /\ isValid shape2 = true
  /\ rebuildGeometry Samples.chamfered shape None None Samples.empty_World
     = Val (Some 0%nat, Samples.warm_World)
  /\ (exists g, nth_error (heap Samples.warm_World) 0 = Some g
                /\ compatible g = true
                /\ QSGGeometry.indexDataDirty g = true
                /\ QSGGeometry.vertexDataDirty g = true)
  /\ exists W'',
       rebuildGeometry Samples.chamfered shape2 (Some 0%nat)
                       (Some Samples.atlas_texture) Samples.warm_World
       = Val (Some 0%nat, W'').
Proof.
  intros shape shape2.
  split; [reflexivity |]. split; [reflexivity |]. split; [reflexivity |].
  apply (built_geometry_feeds_next_build Samples.chamfered shape shape2 None None
           (Some Samples.atlas_texture) Samples.empty_World Samples.warm_World 0%nat).
  - reflexivity.
  - reflexivity.
  - reflexivity.
  - intros _ Hr. discriminate Hr.
Defined.

Lemma rebuildGeometry_prepare_fault
      (simplified : qreal -> qreal -> qreal -> list Element)
      (shape : Shape) (geometry : option ptr) (atlasTexture : option QSGTexture)
      (W W1 : World) (n : nat) (path : option (list QPointF.t)) (f : Fault) :
  isValid shape = true ->
  select_path simplified shape W = Val ((n, path), W1) ->
  prepare_geometry geometry n W1 = Err f ->
  rebuildGeometry simplified shape geometry atlasTexture W = Err f.
Proof.
  intros Hv Hsel Hprep. unfold rebuildGeometry. rewrite Hv; simpl.
  unfold bind at 1. rewrite Hsel; simpl.
  unfold bind at 1. now rewrite Hprep.
Qed.

(** X3.  A geometry that does not carry what lines 241-246 assert (one with
    Qt's default upload patterns, say) is refused by assertion, and only
    after the outline has been selected, so an invalid shape or a failing
    outline build is reported first. *)
Theorem stray_geometry_is_refused
        (simplified : qreal -> qreal -> qreal -> list Element)
        (shape : Shape) (atlasTexture : option QSGTexture) (W : World) (p : ptr)
        (g : QSGGeometry.t) :
  isValid shape = true ->
  outline_available simplified W shape ->
  nth_error (heap W) p = Some g ->
  compatible g = false ->
  rebuildGeometry simplified shape (Some p) atlasTexture W = Err AssertionFailed.
Proof.
  intros Hv Hav Hp Hc.
  destruct (select_path_total simplified shape W Hv Hav) as (n & path & W1 & Hsel).
  destruct (select_path_result simplified _ _ _ _ _ Hsel) as (Hheap & _).
  apply (rebuildGeometry_prepare_fault simplified shape (Some p) atlasTexture
           W W1 n path AssertionFailed Hv Hsel).
  simpl.
  rewrite <- Hheap in Hp.
  unfold bind at 1. rewrite (modify_run _ _ _ _ Hp).
  assert (Hlt : (p < length (heap W1))%nat) by (apply nth_error_Some; congruence).
  unfold bind at 1, deref; simpl.
  rewrite (nth_error_vec_write_same _ _ _ Hlt).
  unfold compatible in Hc. unfold bind, assert, lift, rassert; simpl.
  destruct (QSGGeometry.pattern_eqb (QSGGeometry.indexDataPattern g) _);
    [| reflexivity].
  destruct (QSGGeometry.pattern_eqb (QSGGeometry.vertexDataPattern g) _);
    [| reflexivity].
  destruct (QSGGeometry.is_triangle_strip _); [| reflexivity].
  destruct (QSGGeometry.is_textured_point2d _); [discriminate | reflexivity].
Qed.

Lemma stray_geometry_is_refused_witness :
  let shape := mkShape Samples.rect_100x50 0 in
  let W := mkWorld QCache.empty
                   [QSGGeometry.create QSGGeometry.TexturedPoint2D_set 4] in
  isValid shape = true
  /\ compatible (QSGGeometry.create QSGGeometry.TexturedPoint2D_set 4) = false
  /\ rebuildGeometry Samples.chamfered shape (Some 0%nat) None W = Err AssertionFailed.
Proof.
  intros shape W.
  split; [reflexivity |]. split; [reflexivity |].
  apply (stray_geometry_is_refused Samples.chamfered shape None W 0%nat
           (QSGGeometry.create QSGGeometry.TexturedPoint2D_set 4)).
  - reflexivity.
  - intros _ Hr; discriminate Hr.
  - reflexivity.
  - reflexivity.
Defined.

(** X4.  The painter path is consulted only by a valid rounded shape that
    misses the cache: for an invalid shape, a fuzzily zero radius or a key
    the cache holds, the build is the same whatever the simplifier would
    return, so a cached size is never enumerated or asserted on again. *)
Theorem simplifier_is_consulted_only_on_a_miss
        (simplified simplified' : qreal -> qreal -> qreal -> list Element)
        (shape : Shape) (geometry : option ptr)
        (atlasTexture : option QSGTexture) (W : World) :
  isValid shape = false \/ qFuzzyIsNull (radius shape) = true
  \/ QCache.contains (paths W) (shape_key shape) = true ->
  rebuildGeometry simplified shape geometry atlasTexture W
  = rebuildGeometry simplified' shape geometry atlasTexture W.
Proof.
  intros Hcase.
  assert (Hsel : isValid shape = true ->
                 select_path simplified shape W = select_path simplified' shape W).
  { intros Hv. destruct Hcase as [Hi | [Hr | Hc]]; [congruence | |].
    - now rewrite !select_path_plain.
    - destruct (qFuzzyIsNull (radius shape)) eqn:Hr; [now rewrite !select_path_plain |].
      destruct (proj1 (cache_contains_find _ _) Hc) as (v & Hfind).
      now rewrite (select_path_hit simplified _ _ _ Hr Hfind),
                  (select_path_hit simplified' _ _ _ Hr Hfind). }
  unfold rebuildGeometry.
  destruct (isValid shape); simpl; [| reflexivity].
  unfold bind at 1 3. now rewrite Hsel.
Qed.

Lemma simplifier_is_consulted_only_on_a_miss_witness :
  let shape := mkShape Samples.rect_at_10_20 10 in
  QCache.contains (paths Samples.warm_World) (shape_key shape) = true
  /\ rebuildGeometry Samples.chamfered shape (Some 0%nat) None Samples.warm_World
     = rebuildGeometry Samples.with_curve shape (Some 0%nat) None Samples.warm_World.
Proof.
  intros shape. split; [reflexivity |].
  apply (simplifier_is_consulted_only_on_a_miss Samples.chamfered Samples.with_curve).
  right; right; reflexivity.
Defined.

(** ** The outline cache across builds *)

Lemma filter_drops_one {A : Type} (f : A -> bool) (l : list A) (a : A) :
  In a l -> f a = false -> (length (filter f l) < length l)%nat.
Proof.
  induction l as [|b l IH]; simpl; [tauto |].
  intros [-> | Hin] Hf.
  - rewrite Hf. pose proof (filter_length_le f l). lia.
  - specialize (IH Hin Hf). destruct (f b); simpl; lia.
Qed.

Lemma cache_object_length (c : QCache.t) (k : QCache.Key) :
  (length (snd (QCache.object c k)) <= length c)%nat.
Proof.
  unfold QCache.object.
  destruct (find _ c) as [e|] eqn:E; simpl; [| lia].
  apply find_some in E. destruct E as (Hin & Hk).
  unfold QCache.remove.
  pose proof (filter_drops_one (fun e0 => negb (QCache.key_eqb (fst e0) k)) c e Hin) as H.
  simpl in H. rewrite Hk in H. specialize (H eq_refl). simpl. lia.
Qed.

Lemma cache_insert_length (c : QCache.t) (k : QCache.Key) (v : list QPointF.t) :
  (length (QCache.insert c k v) <= QCache.maxCost)%nat.
Proof.
  unfold QCache.insert. change (QCache.maxCost <? 1)%nat with false.
  cbv iota.
  pose proof (firstn_le_length (QCache.maxCost - 1) (QCache.remove c k)) as H.
  change (length ((k, v) :: firstn (QCache.maxCost - 1) (QCache.remove c k)))
    with (S (length (firstn (QCache.maxCost - 1) (QCache.remove c k)))).
  unfold QCache.maxCost in *. lia.
Qed.

Lemma cache_object_head (c : QCache.t) (k : QCache.Key) (v : list QPointF.t) :
  QCache.find c k = Some v ->
  exists k', QCache.key_eqb k' k = true
             /\ snd (QCache.object c k) = (k', v) :: QCache.remove c k.
Proof.
  unfold QCache.find, QCache.object. intros H.
  destruct (find _ c) as [[k' v']|] eqn:E; simpl in *; [| discriminate].
  injection H as ->. apply find_some in E. exists k'. now split.
Qed.

(** X5.  What a build that returns does to the outline cache.  It never
    lets it grow beyond the capacity of 100 entries; an invalid shape and a
    fuzzily zero radius leave it exactly as it was; a rounded build leaves
    the entry of its key at the front of the usage order with the outline
    it used, so the next build of that size is a hit. *)
Theorem cache_after_a_build
        (simplified : qreal -> qreal -> qreal -> list Element)
        (shape : Shape) (geometry : option ptr)
        (atlasTexture : option QSGTexture) (W W' : World) (r : option ptr) :
  rebuildGeometry simplified shape geometry atlasTexture W = Val (r, W') ->
  ((length (paths W) <= QCache.maxCost)%nat ->
   (length (paths W') <= QCache.maxCost)%nat)
  /\ (isValid shape = false \/ qFuzzyIsNull (radius shape) = true ->
      paths W' = paths W)
  /\ (isValid shape = true -> qFuzzyIsNull (radius shape) = false ->
      QCache.contains (paths W') (shape_key shape) = true
      /\ exists k v rest,
           paths W' = (k, v) :: rest
           /\ QCache.key_eqb k (shape_key shape) = true
           /\ QCache.find (paths W') (shape_key shape) = Some v).
Proof.
  intros Hrun.
  destruct (isValid shape) eqn:Hv.
  - destruct (rebuildGeometry_Val_inv simplified _ _ _ _ _ _ Hv Hrun)
      as (n & path & W1 & Hsel & Hok).
    destruct (rebuildGeometry_run simplified _ _ atlasTexture _ _ _ _ Hv Hsel Hok)
      as (h & g & Hrun' & _).
    rewrite Hrun' in Hrun. injection Hrun as _ <-. simpl.
    destruct (qFuzzyIsNull (radius shape)) eqn:Hr.
    + rewrite select_path_plain in Hsel by assumption.
      injection Hsel as _ _ <-.
      split; [auto |]. split; [auto | discriminate].
    + destruct (QCache.contains (paths W) (shape_key shape)) eqn:Hc.
      * destruct (proj1 (cache_contains_find _ _) Hc) as (v & Hfind).
        rewrite (select_path_hit simplified _ _ _ Hr Hfind) in Hsel.
        injection Hsel as _ _ <-. simpl.
        destruct (cache_object_head _ _ _ Hfind) as (k' & Hk' & Hhead).
        split; [intros Hb; pose proof (cache_object_length (paths W) (shape_key shape));
                lia |].
        split; [intros [H | H]; discriminate |].
        intros _ _.
        assert (Hf : QCache.find (snd (QCache.object (paths W) (shape_key shape)))
                                 (shape_key shape) = Some v).
        { rewrite Hhead. unfold QCache.find. simpl. now rewrite Hk'. }
        split; [apply (proj2 (cache_contains_find _ _)); eauto |].
        exists k', v, (QCache.remove (paths W) (shape_key shape)). auto.
      * rewrite (select_path_miss simplified _ _ Hr Hc) in Hsel.
        destruct (build_outline (elements_of simplified shape)) as [v|f]; [| discriminate].
        injection Hsel as _ _ <-. cbn [paths].
        split; [intros _; apply cache_insert_length |].
        split; [intros [H | H]; discriminate |].
        intros _ _.
        pose proof (cache_insert_find (paths W) (shape_key shape) v) as Hf.
        split; [apply (proj2 (cache_contains_find _ _)); eauto |].
        exists (shape_key shape), v,
          (firstn (QCache.maxCost - 1) (QCache.remove (paths W) (shape_key shape))).
        split; [reflexivity |]. split; [apply key_eqb_refl | exact Hf].
  - rewrite rebuildGeometry_invalid in Hrun by assumption.
    injection Hrun as _ <-.
    split; [auto |]. split; [auto | discriminate].
Qed.

Lemma cache_after_a_build_witness :
  let shape := mkShape Samples.rect_100x50 10 in
  rebuildGeometry Samples.chamfered shape None None Samples.empty_World
  = Val (Some 0%nat, Samples.warm_World)
  /\ (length (paths Samples.warm_World) <= QCache.maxCost)%nat
  /\ QCache.contains (paths Samples.warm_World) (shape_key shape) = true.
Proof.
  intros shape.
  pose proof (cache_after_a_build Samples.chamfered shape None None
                Samples.empty_World Samples.warm_World (Some 0%nat) eq_refl)
    as (Hbound & _ & Hfront).
  split; [reflexivity |].
  split; [apply Hbound; apply Nat.le_0_l |].
  exact (proj1 (Hfront eq_refl eq_refl)).
Defined.

(** ** The shape of the reorder *)

Lemma parity_cases (i : nat) :
  (exists a, i = (2 * a)%nat /\ Nat.even i = true)
  \/ (exists a, i = (2 * a + 1)%nat /\ Nat.even i = false).
Proof.
  destruct (Nat.Even_or_Odd i) as [(a & Ha) | (a & Ha)].
  - left. exists a. split; [exact Ha |]. apply Nat.even_spec. now exists a.
  - right. exists a. split; [exact Ha |].
    rewrite <- Nat.negb_odd.
    assert (Ho : Nat.odd i = true) by (apply Nat.odd_spec; now exists a).
    now rewrite Ho.
Qed.

Lemma source_index_total_injective (m : nat) :
  Nat.odd m = true -> Finite.Injective (source_index_total m).
Proof.
  intros Hm. apply Nat.odd_spec in Hm. destruct Hm as (c & Hc).
  intros i j. unfold source_index_total.
  rewrite !source_index_parity.
  destruct (Nat.ltb_spec i m) as [Hi | Hi], (Nat.ltb_spec j m) as [Hj | Hj];
    destruct (parity_cases i) as [(a & Ha & Hea) | (a & Ha & Hea)];
    destruct (parity_cases j) as [(b & Hb & Heb) | (b & Hb & Heb)];
    rewrite ?Hea, ?Heb; lia.
Qed.

Lemma reordered_as_map (es : list Element) :
  reordered es
  = map toPointF
        (map (fun j => nth j es no_element)
             (map (source_index_total (length es)) (seq 0 (length es)))).
Proof.
  unfold reordered. rewrite !map_map.
  apply map_ext_in. intros i Hi. apply in_seq in Hi.
  unfold source_index_total.
  destruct (Nat.ltb_spec i (length es)); [reflexivity | lia].
Qed.

(** X6.  On an element stream of odd length the outline the builder
    returns is a rearrangement of the stream's points: every element is
    used, and used once. *)
Theorem odd_outline_is_a_permutation (es : list Element) :
  all_move_or_line es ->
  Nat.odd (length es) = true ->
  exists P, build_outline es = Val P /\ Permutation P (map toPointF es).
Proof.
  intros Hall Hodd.
  exists (reordered es). split; [now apply build_outline_ok |].
  rewrite reordered_as_map.
  apply Permutation_map.
  assert (Hes : map (fun j => nth j es no_element) (seq 0 (length es)) = es).
  { rewrite (map_nth_seq (fun e => e) es no_element). apply map_id. }
  apply (Permutation_trans
           (l' := map (fun j => nth j es no_element) (seq 0 (length es)))).
  - apply Permutation_map.
    apply nat_bijection_Permutation.
    + intros i Hi. unfold source_index_total.
      destruct (Nat.ltb_spec i (length es)); [| lia].
      now apply source_index_in_range.
    + now apply source_index_total_injective.
  - rewrite Hes. apply Permutation_refl.
Qed.

Lemma odd_outline_is_a_permutation_witness :
  let es := [ mkElement 1 0 MoveToElement; mkElement 2 0 LineToElement;
              mkElement 3 0 LineToElement; mkElement 4 0 LineToElement;
              mkElement 1 0 LineToElement ] in
  all_move_or_line es
  /\ Nat.odd (length es) = true
  /\ exists P, build_outline es = Val P /\ Permutation P (map toPointF es).
Proof.
  intros es.
  assert (Hall : all_move_or_line es) by (repeat constructor).
  split; [exact Hall |]. split; [reflexivity |].
  exact (odd_outline_is_a_permutation es Hall eq_refl).
Defined.

(** X7.  On an element stream of even length the outline the builder
    returns reads the same in both directions, and each of its points is
    the point of an element at an odd position of the stream: the elements
    at even positions are not copied. *)
Theorem even_outline_is_a_palindrome_of_odd_positions (es : list Element) :
  all_move_or_line es ->
  Nat.even (length es) = true ->
  exists P,
    build_outline es = Val P
    /\ rev P = P
    /\ forall i p, nth_error P i = Some p ->
         exists j e, Nat.odd j = true /\ nth_error es j = Some e /\ p = toPointF e.
Proof.
  intros Hall Hev.
  exists (reordered es). split; [now apply build_outline_ok |].
  apply Nat.even_spec in Hev. destruct Hev as (c & Hc).
  assert (Hsrc : forall i, (i < length es)%nat ->
             Nat.odd (source_index (length es) i) = true
             /\ source_index (length es) (length es - S i) = source_index (length es) i).
  { intros i Hi. rewrite !source_index_parity.
    destruct (parity_cases i) as [(a & Ha & Hea) | (a & Ha & Hea)]; rewrite Hea.
    - destruct (parity_cases (length es - S i)) as [(b & Hb & Heb) | (b & Hb & Heb)];
        [lia |].
      rewrite Heb. split; [| lia].
      apply Nat.odd_spec. exists (c - a - 1)%nat. lia.
    - destruct (parity_cases (length es - S i)) as [(b & Hb & Heb) | (b & Hb & Heb)];
        [| lia].
      rewrite Heb. split; [| lia].
      apply Nat.odd_spec. exists a. lia. }
  split.
  - apply nth_error_ext. intros i.
    rewrite nth_error_rev, reordered_length.
    destruct (Nat.ltb_spec i (length es)) as [Hi | Hi].
    + unfold reordered. rewrite !nth_error_map, !nth_error_seq.
      destruct (Nat.ltb_spec (length es - S i) (length es)); [| lia].
      destruct (Nat.ltb_spec i (length es)); [| lia].
      simpl. now rewrite (proj2 (Hsrc i Hi)).
    + symmetry. apply nth_error_None. rewrite reordered_length. lia.
  - intros i p Hp.
    assert (Hi : (i < length es)%nat).
    { rewrite <- (reordered_length es). apply nth_error_Some. congruence. }
    unfold reordered in Hp. rewrite nth_error_map, nth_error_seq in Hp.
    destruct (Nat.ltb_spec i (length es)); [| lia]. simpl in Hp.
    injection Hp as <-.
    exists (source_index (length es) i), (nth (source_index (length es) i) es no_element).
    split; [exact (proj1 (Hsrc i Hi)) |].
    split; [| reflexivity].
    apply nth_error_nth_default. now apply source_index_in_range.
Qed.

Lemma even_outline_is_a_palindrome_of_odd_positions_witness :
  let es := Samples.chamfered 100 50 10 in
  all_move_or_line es
  /\ Nat.even (length es) = true
  /\ exists P,
       build_outline es = Val P
       /\ rev P = P
       /\ forall i p, nth_error P i = Some p ->
            exists j e, Nat.odd j = true /\ nth_error es j = Some e /\ p = toPointF e.
Proof.
  intros es.
  assert (Hall : all_move_or_line es) by (repeat constructor).
  split; [exact Hall |]. split; [reflexivity |].
  exact (even_outline_is_a_palindrome_of_odd_positions es Hall eq_refl).
Defined.

(** ** The facade: what a call leaves behind *)

Section FacadeRuns.

Variable simplified : qreal -> qreal -> qreal -> list Element.
Variable QRectF_eq : QRectF.t -> QRectF.t -> bool.

(** The two ways a facade rebuild returns. *)
Lemma rebuildGeometry_shape_cases (shape : Shape) (n n' : Node) (W W' : World)
      (b : bool) :
  rebuildGeometry_shape simplified shape n W = Val ((b, n'), W') ->
  (b = false /\ isValid shape = false /\ n' = count_rebuild n /\ W' = W
   /\ m_texture n <> None)
  \/ (b = true /\ isValid shape = true
      /\ exists t g,
           m_texture n = Some t
           /\ geometry_ok W (geometry n)
           /\ geometry n' = Some (target W (geometry n))
           /\ cell_set (heap W) (heap W') (target W (geometry n)) g
           /\ compatible g = true
           /\ (cache_sound simplified (paths W) ->
               expected_vertices simplified shape t (QSGGeometry.vertexData g))
           /\ m_texture n' = m_texture n /\ m_shape n' = m_shape n
           /\ m_smooth n' = m_smooth n
           /\ materialTexture n' = materialTexture n
           /\ opaqueMaterialTexture n' = opaqueMaterialTexture n
           /\ dirtyLog n' = DirtyGeometry :: dirtyLog n
           /\ rebuildCalls n' = S (rebuildCalls n)).
Proof.
  intros Hrun.
  destruct (m_texture n) as [t|] eqn:Ht;
    [| rewrite rebuildGeometry_shape_null in Hrun by assumption; discriminate].
  destruct (isValid shape) eqn:Hv.
  - right.
    assert (Hinner : exists r W1,
               rebuildGeometry simplified shape (geometry n) (atlas_argument t) W
               = Val (r, W1)).
    { unfold rebuildGeometry_shape in Hrun. simpl in Hrun. rewrite Ht in Hrun.
      fold (atlas_argument t) in Hrun.
      destruct (rebuildGeometry simplified shape (geometry n) (atlas_argument t) W)
        as [[r W1]|f]; [eauto | discriminate]. }
    destruct Hinner as (r & W1 & Hinner).
    destruct (rebuildGeometry_Val_inv simplified _ _ _ _ _ _ Hv Hinner)
      as (k & path & W2 & Hsel & Hok).
    destruct (rebuildGeometry_shape_run simplified shape n W W2 t k path Ht Hv Hok Hsel)
      as (h & g & n1 & Hrun1 & Hg & Hcell & Hvd & Hc & Htex & Hsh & Hmt & Hot & Hd & Hcalls).
    rewrite Hrun1 in Hrun. injection Hrun as <- <- <-.
    split; [reflexivity |]. split; [reflexivity |].
    exists t, g. simpl.
    split; [reflexivity |]. split; [exact Hok |]. split; [exact Hg |].
    split; [exact Hcell |]. split; [exact Hc |].
    split.
    + intros Hsound. unfold expected_vertices. rewrite Hvd. unfold built_vertices.
      destruct (select_path_result simplified _ _ _ _ _ Hsel) as (_ & Hshape).
      destruct (qFuzzyIsNull (radius shape)); [reflexivity |].
      destruct Hshape as (v & -> & _ & Hfind).
      pose proof (select_path_sound simplified _ _ _ _ _ Hv Hsound Hsel) as Hsound2.
      destruct (cache_find_In _ _ _ Hfind) as (k' & Hin & Hk').
      destruct (Hsound2 k' v Hin) as (_ & _ & _ & ->).
      exists k'. split; [exact Hk' | reflexivity].
    + assert (Hsm : m_smooth n1 = m_smooth n).
      { unfold rebuildGeometry_shape in Hrun1. simpl in Hrun1. rewrite Ht in Hrun1.
        destruct (rebuildGeometry simplified shape (geometry n)
                    (if isAtlasTexture t then Some t else None) W) as [[[q|] W3]|f];
          try discriminate.
        destruct (ptr_eqb (Some q) (geometry n));
          injection Hrun1 as <- _; reflexivity. }
      rewrite Ht in Htex. tauto.
  - left. rewrite (rebuildGeometry_shape_invalid simplified shape n W t Ht Hv) in Hrun.
    injection Hrun as <- <- <-. repeat split. discriminate.
Qed.

End FacadeRuns.

(** X8.  On a node with a texture, [setShape] returns true exactly when the
    shape differs from the current one and is valid; exactly then the shape
    is committed and one geometry-dirty notification is sent.  When it
    returns false, shape, geometry pointer, notifications and process state
    are as before.  Texture and material bindings are never touched. *)
Theorem setShape_returns_true_iff_rebuilt
        (simplified : qreal -> qreal -> qreal -> list Element)
        (QRectF_eq : QRectF.t -> QRectF.t -> bool)
        (shape : Shape) (n : Node) (W : World) (t : QSGTexture) :
  m_texture n = Some t ->
  geometry_ok W (geometry n) ->
  outline_available simplified W shape ->
  exists b n' W',
    setShape simplified QRectF_eq shape n W = Val ((b, n'), W')
    /\ (b = true <-> Shape_eq QRectF_eq (m_shape n) shape = false
                     /\ isValid shape = true)
    /\ (b = true -> m_shape n' = shape
                    /\ dirtyLog n' = DirtyGeometry :: dirtyLog n)
    /\ (b = false -> m_shape n' = m_shape n /\ dirtyLog n' = dirtyLog n
                     /\ geometry n' = geometry n /\ W' = W)
    /\ m_texture n' = m_texture n
    /\ materialTexture n' = materialTexture n
    /\ opaqueMaterialTexture n' = opaqueMaterialTexture n.
Proof.
  intros Ht Hok Hav. unfold setShape.
  destruct (Shape_eq QRectF_eq (m_shape n) shape) eqn:Heq.
  - exists false, n, W. split; [reflexivity |].
    split; [split; [discriminate | intros (H & _); discriminate] |].
    split; [discriminate |]. auto.
  - destruct (isValid shape) eqn:Hv.
    + destruct (select_path_total simplified shape W Hv Hav) as (k & path & W1 & Hsel).
      destruct (rebuildGeometry_shape_run simplified shape n W W1 t k path Ht Hv Hok Hsel)
        as (h & g & n1 & Hrun & _ & _ & _ & _ & Htex & Hsh & Hmt & Hot & Hd & _).
      rewrite Hrun.
      exists true, (set_m_shape shape n1), (mkWorld (paths W1) h).
      split; [reflexivity |].
      split; [split; auto |].
      split; [intros _; split; [reflexivity | exact Hd] |].
      split; [discriminate |]. simpl. auto.
    + rewrite (rebuildGeometry_shape_invalid simplified shape n W t Ht Hv).
      exists false, (count_rebuild n), W.
      split; [reflexivity |].
      split; [split; [discriminate | intros (_ & H); discriminate] |].
      split; [discriminate |]. simpl. auto.
Qed.

Lemma setShape_returns_true_iff_rebuilt_witness :
  let shape := mkShape Samples.rect_at_10_20 10 in
  let n := Samples.textured_Node in
  m_texture n = Some Samples.plain_texture
  /\ exists b n' W',
       setShape Samples.chamfered QRectF.exact_eq shape n Samples.empty_World
       = Val ((b, n'), W')
       /\ (b = true <-> Shape_eq QRectF.exact_eq (m_shape n) shape = false
                        /\ isValid shape = true)
       /\ (b = true -> m_shape n' = shape
                       /\ dirtyLog n' = DirtyGeometry :: dirtyLog n)
       /\ (b = false -> m_shape n' = m_shape n /\ dirtyLog n' = dirtyLog n
                        /\ geometry n' = geometry n /\ W' = Samples.empty_World)
       /\ m_texture n' = m_texture n
       /\ materialTexture n' = materialTexture n
       /\ opaqueMaterialTexture n' = opaqueMaterialTexture n.
Proof.
  intros shape n. split; [reflexivity |].
  apply (setShape_returns_true_iff_rebuilt Samples.chamfered QRectF.exact_eq shape n
           Samples.empty_World Samples.plain_texture).
  - reflexivity.
  - exact I.
  - intros _ _. right. repeat constructor.
Defined.

Section PointerStability.

Variable simplified : qreal -> qreal -> qreal -> list Element.
Variable QRectF_eq : QRectF.t -> QRectF.t -> bool.

Lemma rebuildGeometry_shape_keeps_pointer (shape : Shape) (n n' : Node)
      (W W' : World) (b : bool) (p : ptr) :
  geometry n = Some p ->
  rebuildGeometry_shape simplified shape n W = Val ((b, n'), W') ->
  geometry n' = Some p /\ length (heap W') = length (heap W).
Proof.
  intros Hg Hrun.
  destruct (rebuildGeometry_shape_cases simplified _ _ _ _ _ _ Hrun)
    as [(_ & _ & -> & -> & _) | (_ & _ & t & g & _ & Hok & Hg' & Hcell & _)].
  - simpl. auto.
  - rewrite Hg in *. simpl in *. split; [exact Hg' |].
    rewrite (cell_set_length _ _ _ _ Hcell).
    destruct Hok as (g0 & Hp & _).
    assert (Hlt : (p < length (heap W))%nat) by (apply nth_error_Some; congruence).
    destruct (Nat.ltb_spec p (length (heap W))); [reflexivity | lia].
Qed.

End PointerStability.

(** X9.  Once the node has a geometry it keeps that very object: no
    [setShape], [setTexture] or [rebuildGeometry] that returns installs
    another pointer or allocates a further geometry; rebuilds write into
    the object the node already owns. *)
Theorem node_keeps_its_geometry
        (simplified : qreal -> qreal -> qreal -> list Element)
        (QRectF_eq : QRectF.t -> QRectF.t -> bool)
        (n : Node) (W : World) (p : ptr) :
  geometry n = Some p ->
  (forall s b n' W',
      setShape simplified QRectF_eq s n W = Val ((b, n'), W') ->
      geometry n' = Some p /\ length (heap W') = length (heap W))
  /\ (forall t n' W',
         setTexture simplified (Some t) n W = Val ((tt, n'), W') ->
         geometry n' = Some p /\ length (heap W') = length (heap W))
  /\ (forall b n' W',
         rebuildGeometry_current simplified n W = Val ((b, n'), W') ->
         geometry n' = Some p /\ length (heap W') = length (heap W)).
Proof.
  intros Hg. split; [| split].
  - intros s b n' W' Hrun. unfold setShape in Hrun.
    destruct (Shape_eq QRectF_eq (m_shape n) s).
    + injection Hrun as _ <- <-. auto.
    + destruct (rebuildGeometry_shape simplified s n W) as [[[r n1] W1]|f] eqn:Hr;
        [| discriminate].
      injection Hrun as _ <- <-.
      destruct (rebuildGeometry_shape_keeps_pointer simplified _ _ _ _ _ _ _ Hg Hr)
        as (Hg1 & Hlen).
      split; [now destruct r | exact Hlen].
  - intros t n' W' Hrun. unfold setTexture in Hrun.
    destruct ((match m_texture n with
               | Some old => isAtlasTexture old
               | None => true
               end) || isAtlasTexture t).
    + destruct (rebuildGeometry_current simplified (set_m_texture (Some t) n) W)
        as [[[r n1] W1]|f] eqn:Hr; [| discriminate].
      injection Hrun as <- <-.
      destruct (rebuildGeometry_shape_keeps_pointer simplified _
                  (set_m_texture (Some t) n) _ _ _ _ p Hg Hr) as (Hg1 & Hlen).
      simpl. auto.
    + injection Hrun as <- <-. simpl. auto.
  - intros b n' W' Hrun.
    exact (rebuildGeometry_shape_keeps_pointer simplified _ _ _ _ _ _ _ Hg Hrun).
Qed.

Lemma node_keeps_its_geometry_witness :
  geometry Samples.shaped_Node = Some 0%nat
  /\ exists n' W',
       setShape Samples.chamfered QRectF.exact_eq (mkShape Samples.rect_at_10_20 0)
                Samples.shaped_Node Samples.shaped_World = Val ((true, n'), W')
       /\ geometry n' = Some 0%nat
       /\ length (heap W') = length (heap Samples.shaped_World).
Proof.
  split; [reflexivity |].
  eexists. eexists. split; [vm_compute; reflexivity |].
  apply (proj1 (node_keeps_its_geometry Samples.chamfered QRectF.exact_eq
                  Samples.shaped_Node Samples.shaped_World 0%nat eq_refl)
               (mkShape Samples.rect_at_10_20 0) true).
  vm_compute; reflexivity.
Defined.

Section GeometryMatches.

Variable simplified : qreal -> qreal -> qreal -> list Element.
Variable QRectF_eq : QRectF.t -> QRectF.t -> bool.

(** A facade rebuild of the shape [s] leaves a node whose geometry is the
    one of [s], whatever it was before. *)
Lemma rebuildGeometry_shape_matches (s : Shape) (n n' : Node) (W W' : World) :
  cache_sound simplified (paths W) ->
  rebuildGeometry_shape simplified s n W = Val ((true, n'), W') ->
  exists t p g,
    m_texture n' = Some t /\ geometry n' = Some p
    /\ nth_error (heap W') p = Some g
    /\ expected_vertices simplified s t (QSGGeometry.vertexData g).
Proof.
  intros Hs Hrun.
  destruct (rebuildGeometry_shape_cases simplified _ _ _ _ _ _ Hrun)
    as [(Hb & _) | (_ & _ & t & g & Ht & _ & Hg & (Hcell & _) & _ & Hexp & Htex & _)];
    [discriminate |].
  exists t, (target W (geometry n)), g.
  split; [congruence |]. split; [exact Hg |]. split; [exact Hcell | now apply Hexp].
Qed.

(** A rebuild that fails leaves the matching geometry matching. *)
Lemma geometry_matches_count_rebuild (n : Node) (W : World) :
  geometry_matches simplified n W -> geometry_matches simplified (count_rebuild n) W.
Proof. intros H. exact H. Qed.

Lemma setter_reachable_matches (n : Node) (W : World) :
  setter_reachable simplified QRectF_eq n W -> geometry_matches simplified n W.
Proof.
  intros Hreach.
  induction Hreach as [W Hs | n n' W W' s b Hreach IH Hrun
                       | n n' W W' t Hreach IH Hrun
                       | n n' W W' b Hreach IH Hrun];
    try (destruct (reachable_invariant simplified QRectF_eq n W
                     (setter_reachable_reachable simplified QRectF_eq n W Hreach))
          as (Hok & Hs & Hnull)).
  - intros Hv. discriminate Hv.
  - unfold setShape in Hrun.
    destruct (Shape_eq QRectF_eq (m_shape n) s).
    + injection Hrun as _ <- <-. exact IH.
    + destruct (rebuildGeometry_shape simplified s n W) as [[[r n1] W1]|f] eqn:Hr;
        [| discriminate].
      injection Hrun as _ <- <-.
      destruct r.
      * intros _. simpl.
        exact (rebuildGeometry_shape_matches s n n1 W W1 Hs Hr).
      * destruct (rebuildGeometry_shape_cases simplified _ _ _ _ _ _ Hr)
          as [(_ & _ & -> & -> & _) | (Hb & _)]; [exact IH | discriminate].
  - unfold setTexture in Hrun.
    set (n1 := set_m_texture (Some t) n) in *.
    destruct (m_texture n) as [old|] eqn:Hold.
    + destruct (isAtlasTexture old) eqn:Ho.
      * simpl in Hrun.
        destruct (rebuildGeometry_current simplified n1 W) as [[[r n2] W2]|f] eqn:Hr;
          [| discriminate].
        injection Hrun as <- <-.
        destruct (rebuildGeometry_shape_cases simplified _ _ _ _ _ _ Hr)
          as [(_ & Hv & -> & -> & _) | (-> & _ & _)].
        -- intros Hv'. subst n1. simpl in Hv', Hv. congruence.
        -- intros _.
           destruct (rebuildGeometry_shape_matches _ n1 n2 W W2 Hs Hr)
             as (t' & p & g & Ht' & Hp & Hg & Hexp).
           destruct (rebuildGeometry_shape_cases simplified _ _ _ _ _ _ Hr)
             as [(Hb & _) | (_ & _ & _ & _ & _ & _ & _ & _ & _ & _ & _ & Hsh & _)];
             [discriminate |].
           exists t', p, g. simpl. rewrite Hsh. auto.
      * destruct (isAtlasTexture t) eqn:Hnew; simpl in Hrun.
        -- destruct (rebuildGeometry_current simplified n1 W) as [[[r n2] W2]|f] eqn:Hr;
             [| discriminate].
           injection Hrun as <- <-.
           destruct (rebuildGeometry_shape_cases simplified _ _ _ _ _ _ Hr)
             as [(_ & Hv & -> & -> & _) | (-> & _ & _)].
           ++ intros Hv'. subst n1. simpl in Hv', Hv. congruence.
           ++ intros _.
              destruct (rebuildGeometry_shape_matches _ n1 n2 W W2 Hs Hr)
                as (t' & p & g & Ht' & Hp & Hg & Hexp).
              destruct (rebuildGeometry_shape_cases simplified _ _ _ _ _ _ Hr)
                as [(Hb & _) | (_ & _ & _ & _ & _ & _ & _ & _ & _ & _ & _ & Hsh & _)];
                [discriminate |].
              exists t', p, g. simpl. rewrite Hsh. auto.
        -- injection Hrun as <- <-. intros Hv. simpl in Hv.
           destruct (IH Hv) as (t0 & p & g & Ht0 & Hp & Hg & Hexp).
           assert (t0 = old) by congruence. subst t0.
           exists t, p, g. simpl.
           split; [reflexivity |]. split; [exact Hp |]. split; [exact Hg |].
           unfold expected_vertices, atlas_argument in *.
           rewrite Ho in Hexp. rewrite Hnew. exact Hexp.
    + simpl in Hrun.
      destruct (rebuildGeometry_current simplified n1 W) as [[[r n2] W2]|f] eqn:Hr;
        [| discriminate].
      injection Hrun as <- <-.
      destruct (rebuildGeometry_shape_cases simplified _ _ _ _ _ _ Hr)
        as [(_ & Hv & -> & -> & _) | (-> & _ & _)].
      * intros Hv'. subst n1. simpl in Hv', Hv. congruence.
      * intros _.
        destruct (rebuildGeometry_shape_matches _ n1 n2 W W2 Hs Hr)
          as (t' & p & g & Ht' & Hp & Hg & Hexp).
        destruct (rebuildGeometry_shape_cases simplified _ _ _ _ _ _ Hr)
          as [(Hb & _) | (_ & _ & _ & _ & _ & _ & _ & _ & _ & _ & _ & Hsh & _)];
          [discriminate |].
        exists t', p, g. simpl. rewrite Hsh. auto.
  - destruct (rebuildGeometry_shape_cases simplified _ _ _ _ _ _ Hrun)
      as [(_ & _ & -> & -> & _) | (-> & _ & _)]; [exact IH |].
    intros _.
    destruct (rebuildGeometry_shape_matches _ n n' W W' Hs Hrun)
      as (t' & p & g & Ht' & Hp & Hg & Hexp).
    destruct (rebuildGeometry_shape_cases simplified _ _ _ _ _ _ Hrun)
      as [(Hb & _) | (_ & _ & _ & _ & _ & _ & _ & _ & _ & _ & _ & Hsh & _)];
      [discriminate |].
    exists t', p, g. rewrite Hsh. auto.
Qed.

End GeometryMatches.

(** X10.  As long as the shape is given through [setShape] only, that is
    in every state reached from the constructor by calls of [setShape],
    [setTexture] and [rebuildGeometry()], a node whose shape is valid has
    a texture and a geometry, and the geometry holds the vertices of that
    shape under that texture: the four corners with the corners of the
    sub-rect, as [float]s, for a fuzzily zero radius, the image of the
    reordered outline of its size and radius otherwise.  In particular the
    geometry follows the latest of [setShape] and [setTexture], in either
    order.  ([rebuildGeometry(const Shape&)] builds the shape it is given
    without committing it, and the static build writes to whatever it is
    passed: neither is among the calls.) *)
Theorem reachable_geometry_is_current
        (simplified : qreal -> qreal -> qreal -> list Element)
        (QRectF_eq : QRectF.t -> QRectF.t -> bool) (n : Node) (W : World) :
  setter_reachable simplified QRectF_eq n W ->
  isValid (m_shape n) = true ->
  exists t p g,
    m_texture n = Some t /\ geometry n = Some p
    /\ nth_error (heap W) p = Some g
    /\ let S := if isAtlasTexture t then normalizedTextureSubRect t
                else QRectF.mk 0 0 1 1 in
       let atlas := if isAtlasTexture t then Some t else None in
       (qFuzzyIsNull (radius (m_shape n)) = true ->
        QSGGeometry.vertexData g = plain_vertices (rect (m_shape n)) S)
       /\ (qFuzzyIsNull (radius (m_shape n)) = false ->
           exists k,
             QCache.key_eqb k (shape_key (m_shape n)) = true
             /\ QSGGeometry.vertexData g
                = map (textured_point (m_shape n) atlas S)
                      (reordered (simplified (fst (fst k)) (snd (fst k)) (snd k)))).
Proof.
  intros Hreach Hv.
  destruct (setter_reachable_matches simplified QRectF_eq n W Hreach Hv)
    as (t & p & g & Ht & Hp & Hg & Hexp).
  exists t, p, g.
  split; [exact Ht |]. split; [exact Hp |]. split; [exact Hg |].
  unfold expected_vertices, atlas_argument in Hexp. simpl in Hexp.
  assert (HS : texNormalSubRect_of (if isAtlasTexture t then Some t else None)
               = if isAtlasTexture t then normalizedTextureSubRect t
                 else QRectF.mk 0 0 1 1)
    by (now destruct (isAtlasTexture t)).
  rewrite HS in Hexp. simpl.
  destruct (qFuzzyIsNull (radius (m_shape n))).
  - split; [intros _; exact Hexp | discriminate].
  - split; [discriminate | intros _; exact Hexp].
Qed.

Lemma shaped_state_setter_reachable :
  setter_reachable Samples.chamfered QRectF.exact_eq
                   Samples.shaped_Node Samples.shaped_World.
Proof.
  apply (by_setShape Samples.chamfered QRectF.exact_eq
           Samples.textured_Node Samples.shaped_Node
           Samples.empty_World Samples.shaped_World
           (mkShape Samples.rect_100x50 10) true).
  - apply (by_setTexture Samples.chamfered QRectF.exact_eq
             new_Node Samples.textured_Node
             Samples.empty_World Samples.empty_World Samples.plain_texture).
    + apply by_new. apply cache_sound_empty.
    + reflexivity.
  - reflexivity.
Qed.

Lemma shaped_state_reachable :
  reachable Samples.chamfered QRectF.exact_eq Samples.shaped_Node Samples.shaped_World.
Proof. exact (setter_reachable_reachable _ _ _ _ shaped_state_setter_reachable). Qed.

Lemma reachable_geometry_is_current_witness :
  let n := Samples.shaped_Node in
  setter_reachable Samples.chamfered QRectF.exact_eq n Samples.shaped_World
  /\ isValid (m_shape n) = true
  /\ exists t p g,
       m_texture n = Some t /\ geometry n = Some p
       /\ nth_error (heap Samples.shaped_World) p = Some g
       /\ let S := if isAtlasTexture t then normalizedTextureSubRect t
                   else QRectF.mk 0 0 1 1 in
          let atlas := if isAtlasTexture t then Some t else None in
          (qFuzzyIsNull (radius (m_shape n)) = true ->
           QSGGeometry.vertexData g = plain_vertices (rect (m_shape n)) S)
          /\ (qFuzzyIsNull (radius (m_shape n)) = false ->
              exists k,
                QCache.key_eqb k (shape_key (m_shape n)) = true
                /\ QSGGeometry.vertexData g
                   = map (textured_point (m_shape n) atlas S)
                         (reordered (Samples.chamfered (fst (fst k)) (snd (fst k))
                                                       (snd k)))).
Proof.
  intros n.
  split; [exact shaped_state_setter_reachable |]. split; [reflexivity |].
  exact (reachable_geometry_is_current Samples.chamfered QRectF.exact_eq n
           Samples.shaped_World shaped_state_setter_reachable eq_refl).
Defined.

(** ** [setSmooth] and the constructor *)

Section Smooth.

Variable simplified : qreal -> qreal -> qreal -> list Element.
Variable QRectF_eq : QRectF.t -> QRectF.t -> bool.
Variables material0 opaque0 : MaterialFilter.

Lemma rebuildGeometry_shape_smooth (shape : Shape) (n n' : Node) (W W' : World)
      (b : bool) :
  rebuildGeometry_shape simplified shape n W = Val ((b, n'), W') ->
  m_smooth n' = m_smooth n.
Proof.
  intros Hrun.
  destruct (rebuildGeometry_shape_cases simplified _ _ _ _ _ _ Hrun)
    as [(_ & _ & -> & _) | (_ & _ & t & g & H)]; [reflexivity | tauto].
Qed.

Lemma setShape_smooth (s : Shape) (n n' : Node) (W W' : World) (b : bool) :
  setShape simplified QRectF_eq s n W = Val ((b, n'), W') ->
  m_smooth n' = m_smooth n.
Proof.
  unfold setShape. intros Hrun.
  destruct (Shape_eq QRectF_eq (m_shape n) s).
  - now injection Hrun as _ <- _.
  - destruct (rebuildGeometry_shape simplified s n W) as [[[r n1] W1]|f] eqn:Hr;
      [| discriminate].
    injection Hrun as _ <- _.
    rewrite <- (rebuildGeometry_shape_smooth _ _ _ _ _ _ Hr). now destruct r.
Qed.

Lemma setTexture_smooth (t : QSGTexture) (n n' : Node) (W W' : World) :
  setTexture simplified (Some t) n W = Val ((tt, n'), W') ->
  m_smooth n' = m_smooth n.
Proof.
  unfold setTexture. intros Hrun.
  destruct ((match m_texture n with
             | Some old => isAtlasTexture old
             | None => true
             end) || isAtlasTexture t).
  - destruct (rebuildGeometry_current simplified (set_m_texture (Some t) n) W)
      as [[[r n1] W1]|f] eqn:Hr; [| discriminate].
    injection Hrun as <- _. simpl.
    exact (rebuildGeometry_shape_smooth _ _ _ _ _ _ Hr).
  - now injection Hrun as <- _.
Qed.

(** What holds of every reachable facade state. *)
Lemma facade_reachable_smooth (f : Facade) (W : World) :
  facade_reachable simplified QRectF_eq material0 opaque0 f W ->
  m_smooth (node f) = true
  /\ (materialFilter f = material0
      \/ materialFilter f = mkFilter Nearest NoFiltering)
  /\ (opaqueMaterialFilter f = opaque0
      \/ opaqueMaterialFilter f = mkFilter Nearest NoFiltering).
Proof.
  induction 1 as [W | f W smooth _ (Hs & Hm & Ho)
                  | f n' W W' s b _ (Hs & Hm & Ho) Hrun
                  | f n' W W' t _ (Hs & Hm & Ho) Hrun
                  | f n' W W' b _ (Hs & Hm & Ho) Hrun
                  | f n' W W' s b _ (Hs & Hm & Ho) Hrun
                  | f W W' s g r a _ IH Hrun].
  - simpl. auto.
  - unfold setSmooth. rewrite Hs.
    destruct smooth; simpl; auto.
  - simpl. rewrite (setShape_smooth _ _ _ _ _ _ Hrun). auto.
  - simpl. rewrite (setTexture_smooth _ _ _ _ _ Hrun). auto.
  - simpl. rewrite (rebuildGeometry_shape_smooth _ _ _ _ _ _ Hrun). auto.
  - simpl. rewrite (rebuildGeometry_shape_smooth _ _ _ _ _ _ Hrun). auto.
  - exact IH.
Qed.

End Smooth.

(** X11.  [m_smooth] is read and never written: in every state the facade
    can reach it still holds its initial value true.  So the constructor's
    [setSmooth(m_smooth)] and every later [setSmooth(true)] change nothing,
    and the two materials keep the filtering their constructors gave them
    until [setSmooth(false)] sets nearest filtering without mipmaps; linear
    filtering is never selected by the node. *)
Theorem smooth_flag_is_never_written
        (simplified : qreal -> qreal -> qreal -> list Element)
        (QRectF_eq : QRectF.t -> QRectF.t -> bool)
        (material0 opaque0 : MaterialFilter) (f : Facade) (W : World) :
  facade_reachable simplified QRectF_eq material0 opaque0 f W ->
  m_smooth (node f) = true
  /\ setSmooth true f = f
  /\ (materialFilter f = material0
      \/ materialFilter f = mkFilter Nearest NoFiltering)
  /\ (opaqueMaterialFilter f = opaque0
      \/ opaqueMaterialFilter f = mkFilter Nearest NoFiltering)
  /\ construct material0 opaque0 = mkFacade new_Node material0 opaque0.
Proof.
  intros Hreach.
  destruct (facade_reachable_smooth simplified QRectF_eq material0 opaque0 f W Hreach)
    as (Hs & Hm & Ho).
  split; [exact Hs |].
  split; [unfold setSmooth; now rewrite Hs |].
  split; [exact Hm |]. split; [exact Ho | reflexivity].
Qed.

Lemma smooth_flag_is_never_written_witness :
  let d := mkFilter Nearest NoFiltering in
  let f := setSmooth true (setSmooth false (construct d d)) in
  facade_reachable Samples.chamfered QRectF.exact_eq d d f Samples.empty_World
  /\ m_smooth (node f) = true
  /\ setSmooth true f = f
  /\ (materialFilter f = d \/ materialFilter f = mkFilter Nearest NoFiltering)
  /\ (opaqueMaterialFilter f = d
      \/ opaqueMaterialFilter f = mkFilter Nearest NoFiltering)
  /\ construct d d = mkFacade new_Node d d.
Proof.
  intros d f.
  assert (Hreach : facade_reachable Samples.chamfered QRectF.exact_eq d d f
                                    Samples.empty_World).
  { apply facade_setSmooth. apply facade_setSmooth. apply facade_new. }
  split; [exact Hreach |].
  exact (smooth_flag_is_never_written Samples.chamfered QRectF.exact_eq d d f
           Samples.empty_World Hreach).
Defined.

(** X12.  In every reachable state [setSmooth(false)] sets nearest filtering
    and no mipmap filtering on both materials and sends one material-dirty
    notification, on every call, also when the filters already have these
    values; it changes no other member of the node (texture, shape, geometry
    pointer, material textures) and, taking no process state, neither the
    cache nor any geometry. *)
Theorem setSmooth_false_sets_nearest_each_time
        (simplified : qreal -> qreal -> qreal -> list Element)
        (QRectF_eq : QRectF.t -> QRectF.t -> bool)
        (material0 opaque0 : MaterialFilter) (f : Facade) (W : World) :
  facade_reachable simplified QRectF_eq material0 opaque0 f W ->
  let f1 := setSmooth false f in
  let f2 := setSmooth false f1 in
  materialFilter f1 = mkFilter Nearest NoFiltering
  /\ opaqueMaterialFilter f1 = mkFilter Nearest NoFiltering
  /\ dirtyLog (node f1) = DirtyMaterial :: dirtyLog (node f)
  /\ m_texture (node f1) = m_texture (node f)
  /\ m_shape (node f1) = m_shape (node f)
  /\ geometry (node f1) = geometry (node f)
  /\ materialTexture (node f1) = materialTexture (node f)
  /\ opaqueMaterialTexture (node f1) = opaqueMaterialTexture (node f)
  /\ materialFilter f2 = materialFilter f1
  /\ opaqueMaterialFilter f2 = opaqueMaterialFilter f1
  /\ dirtyLog (node f2) = DirtyMaterial :: DirtyMaterial :: dirtyLog (node f).
Proof.
  intros Hreach f1 f2.
  destruct (facade_reachable_smooth simplified QRectF_eq material0 opaque0 f W Hreach)
    as (Hs & _).
  assert (H1 : f1 = mkFacade (markDirty DirtyMaterial (node f))
                             (mkFilter Nearest NoFiltering)
                             (mkFilter Nearest NoFiltering)).
  { unfold f1, setSmooth. now rewrite Hs. }
  assert (H2 : f2 = mkFacade (markDirty DirtyMaterial (node f1))
                             (mkFilter Nearest NoFiltering)
                             (mkFilter Nearest NoFiltering)).
  { unfold f2, setSmooth. rewrite H1. simpl. now rewrite Hs. }
  rewrite H2, H1. simpl. repeat split.
Qed.

Lemma setSmooth_false_sets_nearest_each_time_witness :
  let d := mkFilter Nearest NoFiltering in
  let f := construct d d in
  facade_reachable Samples.chamfered QRectF.exact_eq d d f Samples.empty_World
  /\ materialFilter (setSmooth false f) = mkFilter Nearest NoFiltering
  /\ dirtyLog (node (setSmooth false (setSmooth false f)))
     = DirtyMaterial :: DirtyMaterial :: dirtyLog (node f).
Proof.
  intros d f.
  assert (Hreach : facade_reachable Samples.chamfered QRectF.exact_eq d d f
                                    Samples.empty_World) by apply facade_new.
  split; [exact Hreach |].
  pose proof (setSmooth_false_sets_nearest_each_time Samples.chamfered
                QRectF.exact_eq d d f Samples.empty_World Hreach) as H.
  cbv zeta in H.
  split; [exact (proj1 H) |].
  exact (proj2 (proj2 (proj2 (proj2 (proj2 (proj2 (proj2 (proj2 (proj2 (proj2 H)))))))))).
Defined.

(** ** Radii near zero, and sizes built twice *)

Lemma qFuzzyCompare_zero (a r : qreal) :
  a == 0 ->
  qFuzzyCompare a r = true \/ qFuzzyCompare r a = true -> r == 0.
Proof.
  intros Ha H.
  assert (Ha0 : Qabs a == 0) by (rewrite Ha; reflexivity).
  assert (Hle : Qabs r * 1000000000000 <= 0).
  { destruct H as [H | H]; apply qFuzzyCompare_spec in H.
    - assert (E : Qabs (a - r) == Qabs r).
      { assert (E : a - r == - r) by (rewrite Ha; ring).
        rewrite E. apply Qabs_opp. }
      pose proof (Q.le_min_l (Qabs a) (Qabs r)) as Hm.
      rewrite E in H. lra.
    - assert (E : Qabs (r - a) == Qabs r).
      { assert (E : r - a == r) by (rewrite Ha; ring).
        now rewrite E. }
      pose proof (Q.le_min_r (Qabs r) (Qabs a)) as Hm.
      rewrite E in H. lra. }
  pose proof (Qabs_nonneg r) as H0.
  assert (Hb : Qabs r <= 0) by lra.
  apply Qabs_Qle_condition in Hb. lra.
Qed.

(** X13.  The build and the shape comparison draw the line around zero
    differently.  All radii that are fuzzily zero and not negative build
    alike: with the same rect, the static build returns the same result
    and state for any two of them.  Yet radius 0 compares unequal to every
    other radius, so [setShape] treats the change as a new shape. *)
Theorem fuzzily_zero_radii_build_alike_but_compare_unequal
        (simplified : qreal -> qreal -> qreal -> list Element)
        (QRectF_eq : QRectF.t -> QRectF.t -> bool)
        (r : QRectF.t) (r1 r2 : qreal) :
  0 <= r1 -> 0 <= r2 ->
  qFuzzyIsNull r1 = true -> qFuzzyIsNull r2 = true ->
  (forall geometry atlasTexture W,
      rebuildGeometry simplified (mkShape r r1) geometry atlasTexture W
      = rebuildGeometry simplified (mkShape r r2) geometry atlasTexture W)
  /\ (r1 == 0 -> ~ r2 == 0 ->
      Shape_eq QRectF_eq (mkShape r r1) (mkShape r r2) = false
      /\ Shape_eq QRectF_eq (mkShape r r2) (mkShape r r1) = false).
Proof.
  intros H1 H2 Hn1 Hn2. split.
  - intros geometry atlasTexture W.
    unfold rebuildGeometry, select_path, isValid; simpl.
    rewrite (proj2 (Qle_bool_iff 0 r1) H1), (proj2 (Qle_bool_iff 0 r2) H2).
    rewrite Hn1, Hn2. reflexivity.
  - intros Hz Hnz. unfold Shape_eq; simpl.
    assert (Hf : forall a b, a == 0 -> ~ b == 0 ->
                             qFuzzyCompare a b = false /\ qFuzzyCompare b a = false).
    { intros a b Ha Hb.
      split; destruct (qFuzzyCompare _ _) eqn:E; try reflexivity; exfalso; apply Hb.
      - apply (qFuzzyCompare_zero a b Ha). now left.
      - apply (qFuzzyCompare_zero a b Ha). now right. }
    destruct (Hf r1 r2 Hz Hnz) as (Ha & Hb).
    rewrite Ha, Hb, !andb_false_r. auto.
Qed.

Lemma fuzzily_zero_radii_build_alike_but_compare_unequal_witness :
  let r := Samples.rect_100x50 in
  let r2 := 0.0000000000005 in
  0 <= 0 /\ 0 <= r2
  /\ qFuzzyIsNull 0 = true /\ qFuzzyIsNull r2 = true
  /\ (forall geometry atlasTexture W,
         rebuildGeometry Samples.chamfered (mkShape r 0) geometry atlasTexture W
         = rebuildGeometry Samples.chamfered (mkShape r r2) geometry atlasTexture W)
  /\ Shape_eq QRectF.exact_eq (mkShape r 0) (mkShape r r2) = false
  /\ Shape_eq QRectF.exact_eq (mkShape r r2) (mkShape r 0) = false.
Proof.
  intros r r2.
  assert (H0 : 0 <= 0) by apply Qle_refl.
  assert (H2 : 0 <= r2) by discriminate.
  pose proof (fuzzily_zero_radii_build_alike_but_compare_unequal
                Samples.chamfered QRectF.exact_eq r 0 r2 H0 H2 eq_refl eq_refl)
    as (Hbuild & Hcmp).
  split; [exact H0 |]. split; [exact H2 |].
  split; [reflexivity |]. split; [reflexivity |].
  split; [exact Hbuild |].
  apply Hcmp; [reflexivity | discriminate].
Defined.

Lemma rebuildGeometry_select_ext
      (simplified simplified' : qreal -> qreal -> qreal -> list Element)
      (shape : Shape) (geometry : option ptr) (atlasTexture : option QSGTexture)
      (W : World) :
  select_path simplified shape W = select_path simplified' shape W ->
  rebuildGeometry simplified shape geometry atlasTexture W
  = rebuildGeometry simplified' shape geometry atlasTexture W.
Proof.
  intros Hsel. unfold rebuildGeometry.
  destruct (isValid shape); simpl; [| reflexivity].
  unfold bind at 1 3. now rewrite Hsel.
Qed.

(** X14.  Two builds of the same width, height and radius share one
    outline.  After a rounded build, a build of the same size at another
    position is a cache hit whatever the simplifier would return; given no
    geometry it fills a fresh object and leaves the first one alone.  The
    two objects are the images of one cached outline, point by point, so
    that vertex by vertex they agree in their texture coordinates, and the
    positions are the [float]s of the same outline point moved to either
    rect. *)
Theorem same_size_builds_share_the_outline
        (simplified : qreal -> qreal -> qreal -> list Element)
        (s1 : Shape) (x2 y2 : qreal) (geometry : option ptr)
        (atlasTexture : option QSGTexture) (W W1 : World) (p1 : ptr) :
  isValid s1 = true ->
  qFuzzyIsNull (radius s1) = false ->
  rebuildGeometry simplified s1 geometry atlasTexture W = Val (Some p1, W1) ->
  let s2 := mkShape (QRectF.mk x2 y2 (QRectF.width (rect s1)) (QRectF.height (rect s1)))
                    (radius s1) in
  exists p2 W2 g1 g2,
    (forall simplified',
        rebuildGeometry simplified' s2 None atlasTexture W1 = Val (Some p2, W2))
    /\ p2 <> p1
    /\ nth_error (heap W2) p1 = Some g1
    /\ nth_error (heap W1) p1 = Some g1
    /\ nth_error (heap W2) p2 = Some g2
    /\ QSGGeometry.vertexCount g2 = QSGGeometry.vertexCount g1
    /\ (exists P,
          QCache.find (paths W1) (shape_key s1) = Some P
          /\ forall i,
               nth_error (QSGGeometry.vertexData g1) i
               = option_map (textured_point s1 atlasTexture
                               (texNormalSubRect_of atlasTexture))
                            (nth_error P i)
               /\ nth_error (QSGGeometry.vertexData g2) i
                  = option_map (textured_point s2 atlasTexture
                                  (texNormalSubRect_of atlasTexture))
                               (nth_error P i))
    /\ forall i v1 v2,
         nth_error (QSGGeometry.vertexData g1) i = Some v1 ->
         nth_error (QSGGeometry.vertexData g2) i = Some v2 ->
         QSGGeometry.tx v2 = QSGGeometry.tx v1
         /\ QSGGeometry.ty v2 = QSGGeometry.ty v1.
Proof.
  intros Hv Hr Hrun s2.
  destruct (rebuildGeometry_Val_inv simplified _ _ _ _ _ _ Hv Hrun)
    as (n & path & Wm & Hsel & Hok).
  destruct (rebuildGeometry_run simplified _ _ atlasTexture _ _ _ _ Hv Hsel Hok)
    as (h & g1 & Hrun' & (Hcell & _) & Hvd1 & _).
  rewrite Hrun' in Hrun. injection Hrun as <- <-.
  destruct (select_path_result simplified _ _ _ _ _ Hsel) as (_ & Hshape).
  rewrite Hr in Hshape. destruct Hshape as (P & -> & _ & Hfind).
  unfold built_vertices in Hvd1. rewrite Hr in Hvd1.
  set (W1 := mkWorld (paths Wm) h) in *.
  assert (Hv2 : isValid s2 = true) by exact Hv.
  assert (Hr2 : qFuzzyIsNull (radius s2) = false) by exact Hr.
  assert (Hfind2 : QCache.find (paths W1) (shape_key s2) = Some P) by exact Hfind.
  pose proof (select_path_hit simplified s2 W1 P Hr2 Hfind2) as Hsel2.
  destruct (rebuildGeometry_run simplified s2 None atlasTexture W1 _ _ _ Hv2 Hsel2 I)
    as (h2 & g2 & Hrun2 & (Hcell2 & Hframe2) & Hvd2 & _).
  unfold built_vertices in Hvd2. rewrite Hr2 in Hvd2. simpl target in *.
  assert (Hlt : (target W geometry < length h)%nat)
    by (apply nth_error_Some; congruence).
  assert (Hne : length h <> target W geometry) by lia.
  exists (length h), (mkWorld (paths (mkWorld (snd (QCache.object (paths W1) (shape_key s2)))
                                              (heap W1))) h2), g1, g2.
  split.
  { intros simplified'.
    rewrite <- Hrun2.
    apply rebuildGeometry_select_ext.
    now rewrite (select_path_hit simplified' s2 W1 P Hr2 Hfind2), Hsel2. }
  split; [exact Hne |].
  split; [simpl; rewrite Hframe2 by lia; exact Hcell |].
  split; [exact Hcell |].
  split; [exact Hcell2 |].
  split; [unfold QSGGeometry.vertexCount; now rewrite Hvd1, Hvd2, !length_map |].
  split.
  { exists P. split; [exact Hfind |].
    intros i. rewrite Hvd1, Hvd2, !nth_error_map. split; reflexivity. }
  intros i v1 v2 H1 H2.
  rewrite Hvd1, nth_error_map in H1. rewrite Hvd2, nth_error_map in H2.
  destruct (nth_error P i) as [pt|]; [| discriminate].
  injection H1 as <-. injection H2 as <-.
  unfold textured_point, QSGGeometry.set. simpl.
  split; now destruct atlasTexture.
Qed.

Lemma same_size_builds_share_the_outline_witness :
  let s1 := mkShape Samples.rect_100x50 10 in
  let s2 := mkShape (QRectF.mk 10 20 (QRectF.width (rect s1)) (QRectF.height (rect s1)))
                    (radius s1) in
  isValid s1 = true
  /\ qFuzzyIsNull (radius s1) = false
  /\ rebuildGeometry Samples.chamfered s1 None None Samples.empty_World
     = Val (Some 0%nat, Samples.warm_World)
  /\ exists p2 W2 g1 g2,
       (forall simplified',
           rebuildGeometry simplified' s2 None None Samples.warm_World
           = Val (Some p2, W2))
       /\ p2 <> 0%nat
       /\ nth_error (heap W2) 0 = Some g1
       /\ nth_error (heap Samples.warm_World) 0 = Some g1
       /\ nth_error (heap W2) p2 = Some g2
       /\ QSGGeometry.vertexCount g2 = QSGGeometry.vertexCount g1
       /\ (exists P,
             QCache.find (paths Samples.warm_World) (shape_key s1) = Some P
             /\ forall i,
                  nth_error (QSGGeometry.vertexData g1) i
                  = option_map (textured_point s1 None (texNormalSubRect_of None))
                               (nth_error P i)
                  /\ nth_error (QSGGeometry.vertexData g2) i
                     = option_map (textured_point s2 None (texNormalSubRect_of None))
                                  (nth_error P i))
       /\ forall i v1 v2,
            nth_error (QSGGeometry.vertexData g1) i = Some v1 ->
            nth_error (QSGGeometry.vertexData g2) i = Some v2 ->
            QSGGeometry.tx v2 = QSGGeometry.tx v1
            /\ QSGGeometry.ty v2 = QSGGeometry.ty v1.
Proof.
  intros s1 s2.
  split; [reflexivity |]. split; [reflexivity |]. split; [reflexivity |].
  apply (same_size_builds_share_the_outline Samples.chamfered s1 10 20 None None
           Samples.empty_World Samples.warm_World 0%nat);
    reflexivity.
Defined.

(** X15.  Every state the facade can reach is well formed: the geometry
    pointer of the node, when set, points to a live object that passes the
    assertions of the build; every cached outline is the reorder of the
    simplified path of its key, whose width and height are positive and
    whose radius is not negative; and a node that has no texture yet has no
    geometry and still has the default shape, because every rebuild reads
    the texture first. *)
Theorem reachable_states_are_well_formed
        (simplified : qreal -> qreal -> qreal -> list Element)
        (QRectF_eq : QRectF.t -> QRectF.t -> bool) (n : Node) (W : World) :
  reachable simplified QRectF_eq n W ->
  (forall p, geometry n = Some p ->
             exists g, nth_error (heap W) p = Some g /\ compatible g = true)
  /\ (forall k v, In (k, v) (paths W) ->
        0 < fst (fst k) /\ 0 < snd (fst k) /\ 0 <= snd k
        /\ v = reordered (simplified (fst (fst k)) (snd (fst k)) (snd k)))
  /\ (m_texture n = None -> geometry n = None /\ m_shape n = default_Shape).
Proof.
  intros Hreach.
  destruct (reachable_invariant simplified QRectF_eq n W Hreach) as (Hok & Hs & Hnull).
  split; [| split; [exact Hs | exact Hnull]].
  intros p Hp. rewrite Hp in Hok. exact Hok.
Qed.

Lemma reachable_states_are_well_formed_witness :
  let n := Samples.shaped_Node in
  let W := Samples.shaped_World in
  reachable Samples.chamfered QRectF.exact_eq n W
  /\ (forall p, geometry n = Some p ->
                exists g, nth_error (heap W) p = Some g /\ compatible g = true)
  /\ (forall k v, In (k, v) (paths W) ->
        0 < fst (fst k) /\ 0 < snd (fst k) /\ 0 <= snd k
        /\ v = reordered (Samples.chamfered (fst (fst k)) (snd (fst k)) (snd k)))
  /\ (m_texture n = None -> geometry n = None /\ m_shape n = default_Shape).
Proof.
  intros n W.
  split; [exact shaped_state_reachable |].
  exact (reachable_states_are_well_formed Samples.chamfered QRectF.exact_eq n W
           shaped_state_reachable).
Defined.

(** X16.  [rebuildGeometry(const Shape&)] builds the shape it is given and
    does not commit it.  After a call that returned true the node has the
    shape it had, and its geometry holds the vertices of the argument
    under the texture of the node: the four corners as [float]s for a
    fuzzily zero radius, the image of the reordered outline otherwise.  So
    the geometry of a node can belong to another shape than [m_shape]
    until [setShape] or [rebuildGeometry()] builds again. *)
Theorem rebuild_of_a_given_shape_is_not_committed
        (simplified : qreal -> qreal -> qreal -> list Element)
        (s : Shape) (n n' : Node) (W W' : World) :
  cache_sound simplified (paths W) ->
  rebuildGeometry_shape simplified s n W = Val ((true, n'), W') ->
  m_shape n' = m_shape n
  /\ exists t p g,
       m_texture n' = Some t /\ geometry n' = Some p
       /\ nth_error (heap W') p = Some g
       /\ let S := if isAtlasTexture t then normalizedTextureSubRect t
                   else QRectF.mk 0 0 1 1 in
          let atlas := if isAtlasTexture t then Some t else None in
          (qFuzzyIsNull (radius s) = true ->
           QSGGeometry.vertexData g = plain_vertices (rect s) S)
          /\ (qFuzzyIsNull (radius s) = false ->
              exists k,
                QCache.key_eqb k (shape_key s) = true
                /\ QSGGeometry.vertexData g
                   = map (textured_point s atlas S)
                         (reordered (simplified (fst (fst k)) (snd (fst k)) (snd k)))).
Proof.
  intros Hs Hrun.
  destruct (rebuildGeometry_shape_cases simplified _ _ _ _ _ _ Hrun)
    as [(Hb & _) | (_ & _ & t & g & Ht & _ & Hg & (Hcell & _) & _ & Hexp & Htex & Hsh & _)];
    [discriminate |].
  split; [exact Hsh |].
  exists t, (target W (geometry n)), g.
  split; [congruence |]. split; [exact Hg |]. split; [exact Hcell |].
  specialize (Hexp Hs).
  unfold expected_vertices, atlas_argument in Hexp. simpl in Hexp.
  assert (HS : texNormalSubRect_of (if isAtlasTexture t then Some t else None)
               = if isAtlasTexture t then normalizedTextureSubRect t
                 else QRectF.mk 0 0 1 1)
    by (now destruct (isAtlasTexture t)).
  rewrite HS in Hexp. simpl.
  destruct (qFuzzyIsNull (radius s)).
  - split; [intros _; exact Hexp | discriminate].
  - split; [discriminate | intros _; exact Hexp].
Qed.

Lemma rebuild_of_a_given_shape_is_not_committed_witness :
  let n := Samples.shaped_Node in
  let W := Samples.shaped_World in
  let s := mkShape Samples.rect_at_10_20 0 in
  cache_sound Samples.chamfered (paths W)
  /\ m_shape n = mkShape Samples.rect_100x50 10
  /\ exists n' W',
       rebuildGeometry_shape Samples.chamfered s n W = Val ((true, n'), W')
       /\ m_shape n' = m_shape n
       /\ exists t p g,
            m_texture n' = Some t /\ geometry n' = Some p
            /\ nth_error (heap W') p = Some g
            /\ let S := if isAtlasTexture t then normalizedTextureSubRect t
                        else QRectF.mk 0 0 1 1 in
               let atlas := if isAtlasTexture t then Some t else None in
               (qFuzzyIsNull (radius s) = true ->
                QSGGeometry.vertexData g = plain_vertices (rect s) S)
               /\ (qFuzzyIsNull (radius s) = false ->
                   exists k,
                     QCache.key_eqb k (shape_key s) = true
                     /\ QSGGeometry.vertexData g
                        = map (textured_point s atlas S)
                              (reordered (Samples.chamfered (fst (fst k)) (snd (fst k))
                                                            (snd k)))).
Proof.
  intros n W s.
  assert (Hs : cache_sound Samples.chamfered (paths W)).
  { exact (proj1 (proj2 (reachable_invariant Samples.chamfered QRectF.exact_eq n W
                           shaped_state_reachable))). }
  split; [exact Hs |].
  split; [reflexivity |].
  do 2 eexists.
  split; [vm_compute; reflexivity |].
  apply (rebuild_of_a_given_shape_is_not_committed Samples.chamfered s n _ W _ Hs).
  vm_compute; reflexivity.
Defined.
